(** * configure-storage.py: the Ghost storage-adapter patcher

    A shallow embedding of [scripts/configure-storage.py].  The script reads
    a JSON configuration file, assigns a fixed block to its ['storage'] key
    and writes the document back with [json.dump(config, f, indent=2)].

    The script itself is a dozen lines; what it does is decided by the
    Python runtime it calls: text files ([open], UTF-8, universal newlines),
    [json.load] and [json.dump].  Those are modelled here after CPython's
    [json] package ([json/decoder.py], [json/scanner.py], [json/encoder.py]):
    the scanner character by character, the encoder with [ensure_ascii=True]
    and an indent, dictionaries as insertion-ordered association lists.
    Binary floating point is kept behind the interface [FloatModel]. *)

From stdpp Require Import base option list gmap.
From Stdlib Require Import NArith ZArith Lia Strings.Ascii Strings.Byte.
From Stdlib Require Strings.String.
Import String.StringSyntax.

Set Warnings "-register-all".

Local Open Scope string_scope.
Local Open Scope N_scope.

(** ** Python strings *)

(** A Python [str] is a sequence of code points; a well-typed one has every
    code point below [0x110000] (surrogates included). *)
Abbreviation codepoint := N (only parsing).
Abbreviation str := (list N) (only parsing).

Definition lit (s : String.string) : str :=
  map N_of_ascii (String.list_ascii_of_string s).

Definition is_codepoint (c : N) : bool := c <? 0x110000.
Definition is_str (s : str) : bool := forallb is_codepoint s.

Definition is_high (c : N) : bool := (0xD800 <=? c) && (c <=? 0xDBFF).
Definition is_low (c : N) : bool := (0xDC00 <=? c) && (c <=? 0xDFFF).
Definition is_surrogate (c : N) : bool := (0xD800 <=? c) && (c <=? 0xDFFF).

(** A Unicode scalar value: what decoding UTF-8 can produce. *)
Definition is_scalar (c : N) : bool := is_codepoint c && negb (is_surrogate c).

(** ** Characters used by the JSON grammar *)

Definition ch_quote : N := 34.      (* double quote *)
Definition ch_backslash : N := 92.  (* backslash *)
Definition ch_comma : N := 44.
Definition ch_colon : N := 58.
Definition ch_lbracket : N := 91.
Definition ch_rbracket : N := 93.
Definition ch_lbrace : N := 123.
Definition ch_rbrace : N := 125.
Definition ch_minus : N := 45.
Definition ch_plus : N := 43.
Definition ch_dot : N := 46.
Definition ch_zero : N := 48.
Definition ch_space : N := 32.
Definition ch_newline : N := 10.
Definition ch_u : N := 117.

(** The [WHITESPACE] pattern: space, tab, line feed, carriage return. *)
Definition is_ws (c : N) : bool :=
  (c =? 32) || (c =? 9) || (c =? 10) || (c =? 13).

Fixpoint skip_ws (s : str) : str :=
  match s with
  | c :: r => if is_ws c then skip_ws r else s
  | [] => []
  end.

Definition is_digit (c : N) : bool := (48 <=? c) && (c <=? 57).

(** ** Integers: [int.__repr__] and [int(text)] *)

Fixpoint digits_fuel (fuel : nat) (n : N) (acc : str) : str :=
  match fuel with
  | O => acc
  | S f =>
      let acc' := (48 + n mod 10) :: acc in
      if n <? 10 then acc' else digits_fuel f (n / 10) acc'
  end.

(** The decimal digits of [n], most significant first; the number of bits
    of [n] bounds the number of digits. *)
Definition digits (n : N) : str :=
  digits_fuel (S (N.to_nat (N.log2 n))) n [].

Definition int_repr (z : Z) : str :=
  match z with
  | Zneg p => ch_minus :: digits (Npos p)
  | _ => digits (Z.to_N z)
  end.

Definition N_of_digits (s : str) : N :=
  fold_left (fun a c => a * 10 + (c - 48)) s 0.

(** [int(text)], for a text the integer part of [NUMBER_RE] matched. *)
Definition int_of_text (s : str) : Z :=
  match s with
  | c :: r => if c =? ch_minus then (- Z.of_N (N_of_digits r))%Z
              else Z.of_N (N_of_digits s)
  | [] => 0%Z
  end.

(** ** Hexadecimal escapes *)

Definition hex_digit (d : N) : N := if d <? 10 then 48 + d else 87 + d.

(** ['\\u{0:04x}'.format(n)] without the leading backslash-u. *)
Definition hex4 (n : N) : str :=
  [hex_digit (n / 4096 mod 16); hex_digit (n / 256 mod 16);
   hex_digit (n / 16 mod 16); hex_digit (n mod 16)].

Definition hex_value (c : N) : option N :=
  if is_digit c then Some (c - 48)
  else if (97 <=? c) && (c <=? 102) then Some (c - 87)
  else if (65 <=? c) && (c <=? 70) then Some (c - 55)
  else None.

(** [_decode_uXXXX]: exactly four hexadecimal digits. *)
Definition unhex4 (a b c d : N) : option N :=
  x3 ← hex_value a; x2 ← hex_value b; x1 ← hex_value c; x0 ← hex_value d;
  Some (x3 * 4096 + x2 * 256 + x1 * 16 + x0).

(** ** Strings: [encode_basestring_ascii] and [scanstring] *)

Definition join_surrogates (hi lo : N) : N :=
  0x10000 + ((hi - 0xD800) * 1024 + (lo - 0xDC00)).

(** [ESCAPE_DCT] first, then printable ASCII verbatim, then [\uXXXX]; a code
    point above the BMP is written as a surrogate pair. *)
Definition escape_char (c : N) : str :=
  if c =? 34 then [92; 34]
  else if c =? 92 then [92; 92]
  else if c =? 10 then [92; 110]
  else if c =? 13 then [92; 114]
  else if c =? 9 then [92; 116]
  else if c =? 8 then [92; 98]
  else if c =? 12 then [92; 102]
  else if (32 <=? c) && (c <=? 126) then [c]
  else if c <? 0x10000 then 92 :: 117 :: hex4 c
  else
    let n := c - 0x10000 in
    92 :: 117 :: hex4 (0xD800 + (n / 1024) mod 1024)
       ++ 92 :: 117 :: hex4 (0xDC00 + n mod 1024).

Definition encode_basestring_ascii (s : str) : str :=
  ch_quote :: flat_map escape_char s ++ [ch_quote].

(** The [BACKSLASH] table of the decoder. *)
Definition backslash (e : N) : option N :=
  if e =? 34 then Some 34
  else if e =? 92 then Some 92
  else if e =? 47 then Some 47
  else if e =? 98 then Some 8
  else if e =? 102 then Some 12
  else if e =? 110 then Some 10
  else if e =? 114 then Some 13
  else if e =? 116 then Some 9
  else None.

Definition prepend (c : N) (o : option (str * str)) : option (str * str) :=
  match o with
  | Some (t, rest) => Some (c :: t, rest)
  | None => None
  end.

(** [scanstring(s, end, strict=True)], called just after the opening quote:
    the decoded string and the text after the closing quote, or [None] for
    a [JSONDecodeError] (unterminated string, raw control character, bad
    escape).  A [\uXXXX] high surrogate directly followed by a [\uXXXX] low
    surrogate is joined into one code point. *)
Fixpoint scanstring (s : str) : option (str * str) :=
  match s with
  | [] => None
  | c :: r =>
      if c =? 34 then Some ([], r)
      else if c =? 92 then
        match r with
        | [] => None
        | e :: r1 =>
            if e =? 117 then
              match r1 with
              | h1 :: h2 :: h3 :: h4 :: r2 =>
                  match unhex4 h1 h2 h3 h4 with
                  | None => None
                  | Some uni =>
                      if is_high uni then
                        match r2 with
                        | b :: u :: l1 :: l2 :: l3 :: l4 :: r3 =>
                            if (b =? 92) && (u =? 117) then
                              match unhex4 l1 l2 l3 l4 with
                              | None => None
                              | Some uni2 =>
                                  if is_low uni2
                                  then prepend (join_surrogates uni uni2) (scanstring r3)
                                  else prepend uni (scanstring r2)
                              end
                            else prepend uni (scanstring r2)
                        | _ => prepend uni (scanstring r2)
                        end
                      else prepend uni (scanstring r2)
                  end
              | _ => None
              end
            else
              match backslash e with
              | Some x => prepend x (scanstring r1)
              | None => None
              end
        end
      else if c <? 32 then None
      else prepend c (scanstring r)
  end.

(** What an escaped string reads back as: a high surrogate directly
    followed by a low one has become the code point they encode. *)
Fixpoint join_pairs (s : str) : str :=
  match s with
  | [] => []
  | h :: r =>
      match r with
      | l :: t =>
          if is_high h && is_low l
          then join_surrogates h l :: join_pairs t
          else h :: join_pairs r
      | [] => [h]
      end
  end.

(** No high surrogate directly followed by a low one. *)
Fixpoint no_pair (s : str) : bool :=
  match s with
  | [] => true
  | h :: r =>
      match r with
      | l :: _ => negb (is_high h && is_low l) && no_pair r
      | [] => true
      end
  end.

(** ** Numbers: the [NUMBER_RE] pattern of [json/scanner.py]

    An optional minus sign, then [0] or a non-zero digit followed by digits;
    an optional fraction (a dot and at least one digit); an optional
    exponent ([e] or [E], an optional sign, at least one digit).  Each group
    is greedy, and a group that cannot be completed is left unmatched. *)

Fixpoint span_digits (s : str) : str * str :=
  match s with
  | c :: r =>
      if is_digit c then let '(d, r') := span_digits r in (c :: d, r')
      else ([], s)
  | [] => ([], [])
  end.

(** The digits of the integer part, [sg] being the sign already read. *)
Definition match_unsigned (sg : str) (s : str) : option (str * str) :=
  match s with
  | d :: r1 =>
      if d =? 48 then Some (sg ++ [d], r1)
      else if is_digit d then
        let '(ds, r2) := span_digits r1 in Some (sg ++ d :: ds, r2)
      else None
  | [] => None
  end.

Definition match_integer (s : str) : option (str * str) :=
  match s with
  | c :: r => if c =? 45 then match_unsigned [c] r else match_unsigned [] s
  | [] => None
  end.

Definition match_frac (s : str) : option str * str :=
  match s with
  | c :: r =>
      if c =? 46 then
        match span_digits r with
        | ([], _) => (None, s)
        | (ds, r') => (Some (c :: ds), r')
        end
      else (None, s)
  | [] => (None, s)
  end.

Definition match_exp (s : str) : option str * str :=
  match s with
  | e :: r =>
      if (e =? 101) || (e =? 69) then
        let '(sg, r1) :=
          match r with
          | c :: r' => if (c =? 43) || (c =? 45) then ([c], r') else ([], r)
          | [] => ([], r)
          end in
        match span_digits r1 with
        | ([], _) => (None, s)
        | (ds, r2) => (Some (e :: sg ++ ds), r2)
        end
      else (None, s)
  | [] => (None, s)
  end.

(** The three groups of a match and the text after it. *)
Definition match_number (s : str) : option (str * option str * option str * str) :=
  match match_integer s with
  | Some (i, r) =>
      let '(fr, r1) := match_frac r in
      let '(ex, r2) := match_exp r1 in
      Some (i, fr, ex, r2)
  | None => None
  end.

Definition opt_text (o : option str) : str := default [] o.

(** A text that [NUMBER_RE] matches whole, with a fraction or an exponent:
    what the scanner turns into a [float]. *)
Definition is_float_literal (t : str) : bool :=
  match match_number t with
  | Some (_, fr, ex, []) => bool_decide (is_Some fr) || bool_decide (is_Some ex)
  | _ => false
  end.

(** ** Floats

    A Python [float] is a finite binary64 value, an infinity or a NaN.  The
    finite values, [float(text)] and [float.__repr__] stay abstract: the
    development needs of them only that [repr] writes a float literal and
    that reading it back gives the same value (CPython's shortest
    round-tripping [repr]). *)

Inductive pyfloat (D : Type) : Type :=
  | Finite (x : D)
  | PosInf
  | NegInf
  | NaN.
Arguments Finite {D} x.
Arguments PosInf {D}.
Arguments NegInf {D}.
Arguments NaN {D}.

Class FloatModel := {
  double : Type;
  float_of_text : str → pyfloat double;
  float_repr : double → str;
  float_repr_literal : ∀ x, is_float_literal (float_repr x) = true;
  float_repr_round_trip : ∀ x, float_of_text (float_repr x) = Finite x;
}.

(** ** Scanner results *)

Inductive scan (A : Type) : Type :=
  | Parsed (a : A) (rest : str)
  | Malformed
  | Starved.
Arguments Parsed {A} a rest.
Arguments Malformed {A}.
Arguments Starved {A}.

Fixpoint starts_with (p s : str) : option str :=
  match p, s with
  | [], _ => Some s
  | a :: p', b :: s' => if a =? b then starts_with p' s' else None
  | _ :: _, [] => None
  end.

(** ** JSON documents as Python values *)

Section Json.
Context {FM : FloatModel}.

(** What [json.load] builds: [None], [bool], [int], [float], [str], [list]
    and [dict] with [str] keys.  A [dict] keeps insertion order, which the
    written file shows, so it is an association list. *)
Inductive value : Type :=
  | VNone
  | VBool (b : bool)
  | VInt (z : Z)
  | VFloat (f : pyfloat double)
  | VStr (s : str)
  | VList (l : list value)
  | VDict (d : list (str * value)).

Abbreviation dict := (list (str * value)) (only parsing).

(** [d[k] = v]: an existing key keeps its place and gets the new value, a
    new key goes last. *)
Fixpoint dict_set (d : dict) (k : str) (v : value) : dict :=
  match d with
  | [] => [(k, v)]
  | (k', v') :: d' =>
      if decide (k' = k) then (k', v) :: d' else (k', v') :: dict_set d' k v
  end.


(** [dict(pairs)] *)
Definition dict_of_pairs (pairs : list (str * value)) : dict :=
  fold_left (fun d kv => dict_set d kv.1 kv.2) pairs [].

(** The strings a [dict] key or a [str] value read from a file can be: every
    code point valid, no surrogate pair left apart. *)
Definition is_text (s : str) : bool := is_str s && no_pair s.

(** The values [json.load] can build: texts as above, keys of a [dict]
    distinct. *)
Fixpoint well_formed (v : value) : bool :=
  match v with
  | VStr s => is_text s
  | VList l => forallb well_formed l
  | VDict d =>
      bool_decide (NoDup (map fst d))
      && forallb (fun kv =>
                    match kv with
                    | (k, x) => is_text k && well_formed x
                    end) d
  | _ => true
  end.

(** No NaN and no infinity anywhere: the documents the JSON grammar can
    write. *)
Fixpoint finite (v : value) : bool :=
  match v with
  | VFloat (Finite _) => true
  | VFloat _ => false
  | VList l => forallb finite l
  | VDict d => forallb (fun kv => match kv with (_, x) => finite x end) d
  | _ => true
  end.

(** The number of scanner calls reading a value back takes. *)
Fixpoint size (v : value) : nat :=
  match v with
  | VList l => S (list_sum (map (fun x => S (size x)) l))
  | VDict d => S (list_sum (map (fun kv => match kv with (_, x) => S (size x) end) d))
  | _ => 1
  end.

(** ** [json.dump] with an indent: [_make_iterencode] *)

Definition newline_indent (indent level : nat) : str :=
  10 :: repeat 32 (indent * level)%nat.

Definition floatstr (f : pyfloat double) : str :=
  match f with
  | NaN => lit "NaN"
  | PosInf => lit "Infinity"
  | NegInf => lit "-Infinity"
  | Finite x => float_repr x
  end.

Fixpoint join_items (sep : str) (items : list str) : str :=
  match items with
  | [] => []
  | [x] => x
  | x :: xs => x ++ sep ++ join_items sep xs
  end.

(** An empty container is written as its two brackets; otherwise every item
    goes on a line of its own, indented one level deeper, and the closing
    bracket on a line at the container's own level. *)
Definition encode_container (opening closing : N) (indent level : nat)
    (items : list str) : str :=
  match items with
  | [] => [opening; closing]
  | _ =>
      opening :: newline_indent indent (S level)
        ++ join_items (44 :: newline_indent indent (S level)) items
        ++ newline_indent indent level ++ [closing]
  end.

Fixpoint iterencode (indent : nat) (o : value) (level : nat) : str :=
  match o with
  | VStr s => encode_basestring_ascii s
  | VNone => lit "null"
  | VBool true => lit "true"
  | VBool false => lit "false"
  | VInt z => int_repr z
  | VFloat f => floatstr f
  | VList l =>
      encode_container 91 93 indent level
        (map (fun x => iterencode indent x (S level)) l)
  | VDict d =>
      encode_container 123 125 indent level
        (map (fun kv =>
                match kv with
                | (k, v) =>
                    encode_basestring_ascii k ++ 58 :: 32
                      :: iterencode indent v (S level)
                end) d)
  end.

(** [json.dumps(o, indent=indent)]: the text [json.dump] writes. *)
Definition json_dumps (indent : nat) (o : value) : str := iterencode indent o 0.

(** ** [json.load]: the scanner *)

(** [scan_once], [JSONArray] and [JSONObject].  [ext] says whether the
    constants [NaN], [Infinity] and [-Infinity] are read, as Python does by
    default and the JSON grammar of RFC 8259 does not.  [elements] starts
    at the first character of an array item; [members] just after the
    quote that opens a key.  The fuel bounds the number of calls;
    [Starved] is its exhaustion, [Malformed] a [JSONDecodeError]. *)
Fixpoint scan_once (ext : bool) (fuel : nat) (s : str) : scan value :=
  match fuel with
  | O => Starved
  | S n =>
      match s with
      | [] => Malformed
      | c :: r =>
          if c =? 34 then
            match scanstring r with
            | Some (t, rest) => Parsed (VStr t) rest
            | None => Malformed
            end
          else if c =? 123 then
            match skip_ws r with
            | c1 :: r1 =>
                if c1 =? 125 then Parsed (VDict []) r1
                else if c1 =? 34 then
                  match members ext n r1 with
                  | Parsed pairs rest => Parsed (VDict (dict_of_pairs pairs)) rest
                  | Malformed => Malformed
                  | Starved => Starved
                  end
                else Malformed
            | [] => Malformed
            end
          else if c =? 91 then
            match skip_ws r with
            | c1 :: r1 =>
                if c1 =? 93 then Parsed (VList []) r1
                else
                  match elements ext n (c1 :: r1) with
                  | Parsed l rest => Parsed (VList l) rest
                  | Malformed => Malformed
                  | Starved => Starved
                  end
            | [] => Malformed
            end
          else
            match starts_with (lit "null") s with
            | Some rest => Parsed VNone rest
            | None =>
            match starts_with (lit "true") s with
            | Some rest => Parsed (VBool true) rest
            | None =>
            match starts_with (lit "false") s with
            | Some rest => Parsed (VBool false) rest
            | None =>
            match match_number s with
            | Some (i, None, None, rest) => Parsed (VInt (int_of_text i)) rest
            | Some (i, fr, ex, rest) =>
                Parsed (VFloat (float_of_text (i ++ opt_text fr ++ opt_text ex))) rest
            | None =>
                if ext then
                  match starts_with (lit "NaN") s with
                  | Some rest => Parsed (VFloat NaN) rest
                  | None =>
                  match starts_with (lit "Infinity") s with
                  | Some rest => Parsed (VFloat PosInf) rest
                  | None =>
                  match starts_with (lit "-Infinity") s with
                  | Some rest => Parsed (VFloat NegInf) rest
                  | None => Malformed
                  end end end
                else Malformed
            end end end end
      end
  end
with elements (ext : bool) (fuel : nat) (s : str) : scan (list value) :=
  match fuel with
  | O => Starved
  | S n =>
      match scan_once ext n s with
      | Parsed v r =>
          match skip_ws r with
          | c :: r1 =>
              if c =? 93 then Parsed [v] r1
              else if c =? 44 then
                match elements ext n (skip_ws r1) with
                | Parsed l rest => Parsed (v :: l) rest
                | Malformed => Malformed
                | Starved => Starved
                end
              else Malformed
          | [] => Malformed
          end
      | Malformed => Malformed
      | Starved => Starved
      end
  end
with members (ext : bool) (fuel : nat) (s : str) : scan (list (str * value)) :=
  match fuel with
  | O => Starved
  | S n =>
      match scanstring s with
      | Some (key, r) =>
          match skip_ws r with
          | c :: r1 =>
              if c =? 58 then
                match scan_once ext n (skip_ws r1) with
                | Parsed v r2 =>
                    match skip_ws r2 with
                    | c2 :: r3 =>
                        if c2 =? 125 then Parsed [(key, v)] r3
                        else if c2 =? 44 then
                          match skip_ws r3 with
                          | q :: r4 =>
                              if q =? 34 then
                                match members ext n r4 with
                                | Parsed l rest => Parsed ((key, v) :: l) rest
                                | Malformed => Malformed
                                | Starved => Starved
                                end
                              else Malformed
                          | [] => Malformed
                          end
                        else Malformed
                    | [] => Malformed
                    end
                | Malformed => Malformed
                | Starved => Starved
                end
              else Malformed
          | [] => Malformed
          end
      | None => Malformed
      end
  end.

(** [JSONDecoder.decode]: one value between optional whitespace, nothing
    after it.  [None] is a [JSONDecodeError]. *)
Definition decode_with (ext : bool) (s : str) : option value :=
  match scan_once ext (2 * length s + 2) (skip_ws s) with
  | Parsed v rest =>
      match skip_ws rest with
      | [] => Some v
      | _ => None
      end
  | _ => None
  end.

(** Python's [json.loads]. *)
Definition json_loads (s : str) : option value := decode_with true s.

(** A parser of the JSON grammar proper, without Python's constants. *)
Definition standard_json_loads (s : str) : option value := decode_with false s.

End Json.

Abbreviation dict := (list (str * value)) (only parsing).

(** ** The limits of the interpreter

    Two limits of CPython bear on [json.load] and are not part of the
    scanner above, which reads integers of any length and containers nested
    to any depth: [int(text)] raises [ValueError] for more than
    [sys.int_max_str_digits] digits (4300 unless set otherwise, since
    Python 3.11), and the scanner raises [RecursionError] when containers
    nest deeper than the recursion limit leaves room for (somewhat under
    1000 levels by default).  A text [within_limits] reaches neither: no
    run of digits is longer than the first limit, and it has so few opening
    brackets that its containers cannot nest deep. *)

Definition int_max_str_digits : nat := 4300.

Definition nesting_room : nat := 100.

(** The longest run of digits of [s], the run before [s] having [run]
    digits. *)
Fixpoint longest_digit_run (s : str) (run : nat) : nat :=
  match s with
  | [] => run
  | c :: r =>
      if is_digit c then longest_digit_run r (S run)
      else Nat.max run (longest_digit_run r 0)
  end.

Fixpoint opening_brackets (s : str) : nat :=
  match s with
  | [] => O
  | c :: r =>
      if (c =? 91) || (c =? 123) then S (opening_brackets r)
      else opening_brackets r
  end.

Definition within_limits (text : str) : bool :=
  Nat.leb (longest_digit_run text 0) int_max_str_digits
  && Nat.leb (opening_brackets text) nesting_room.

(** The characters [json.dump] writes: printable ASCII and the line feed. *)
Definition is_written (c : N) : bool :=
  (c =? 10) || ((32 <=? c) && (c <=? 126)).

(** ** Text files: UTF-8 and universal newlines

    [open(path, 'r')] and [open(path, 'w')] are text mode with the default
    encoding and newline handling.  The encoding is taken to be UTF-8 and
    the platform POSIX (a written line feed stays a line feed); reading
    turns a carriage return, alone or before a line feed, into a line
    feed. *)

Definition is_cont (b : N) : bool := (0x80 <=? b) && (b <=? 0xBF).

(** Strict UTF-8: no overlong form, no surrogate, nothing above
    [0x10FFFF].  [None] is a [UnicodeDecodeError]. *)
Fixpoint utf8_decode (bs : list N) : option str :=
  match bs with
  | [] => Some []
  | b0 :: r0 =>
      if b0 <? 0x80 then cons b0 <$> utf8_decode r0
      else if b0 <? 0xC2 then None
      else if b0 <? 0xE0 then
        match r0 with
        | b1 :: r1 =>
            if is_cont b1
            then cons ((b0 - 0xC0) * 64 + (b1 - 0x80)) <$> utf8_decode r1
            else None
        | _ => None
        end
      else if b0 <? 0xF0 then
        match r0 with
        | b1 :: b2 :: r2 =>
            let c := (b0 - 0xE0) * 4096 + (b1 - 0x80) * 64 + (b2 - 0x80) in
            if is_cont b1 && is_cont b2 && (0x800 <=? c) && negb (is_surrogate c)
            then cons c <$> utf8_decode r2
            else None
        | _ => None
        end
      else if b0 <? 0xF5 then
        match r0 with
        | b1 :: b2 :: b3 :: r3 =>
            let c := (b0 - 0xF0) * 262144 + (b1 - 0x80) * 4096
                     + (b2 - 0x80) * 64 + (b3 - 0x80) in
            if is_cont b1 && is_cont b2 && is_cont b3
               && (0x10000 <=? c) && (c <? 0x110000)
            then cons c <$> utf8_decode r3
            else None
        | _ => None
        end
      else None
  end.

(** [None] is a [UnicodeEncodeError]: a surrogate cannot be encoded. *)
Definition utf8_encode_char (c : N) : option (list N) :=
  if c <? 0x80 then Some [c]
  else if c <? 0x800 then Some [0xC0 + c / 64; 0x80 + c mod 64]
  else if is_surrogate c then None
  else if c <? 0x10000 then
    Some [0xE0 + c / 4096; 0x80 + (c / 64) mod 64; 0x80 + c mod 64]
  else if c <? 0x110000 then
    Some [0xF0 + c / 262144; 0x80 + (c / 4096) mod 64;
          0x80 + (c / 64) mod 64; 0x80 + c mod 64]
  else None.

Fixpoint utf8_encode (s : str) : option (list N) :=
  match s with
  | [] => Some []
  | c :: r =>
      match utf8_encode_char c, utf8_encode r with
      | Some bs, Some rest => Some (bs ++ rest)
      | _, _ => None
      end
  end.

Fixpoint universal_newlines (s : str) : str :=
  match s with
  | [] => []
  | c :: r =>
      if c =? 13 then
        10 :: match r with
              | c' :: r' =>
                  if c' =? 10 then universal_newlines r'
                  else universal_newlines r
              | [] => []
              end
      else c :: universal_newlines r
  end.

Definition byte_of_N (n : N) : byte := default x00 (Byte.of_N n).

(** What [f.read()] returns for the bytes of a file. *)
Definition decode_text (bs : list byte) : option str :=
  universal_newlines <$> utf8_decode (map Byte.to_N bs).

(** The bytes [f.write(text)] produces. *)
Definition encode_text (s : str) : option (list byte) :=
  map byte_of_N <$> utf8_encode s.

(** ** The process and its world *)

Record file : Type := File {
  readable : bool;
  writable : bool;
  content : list byte;
}.

Abbreviation path := (list N) (only parsing).

Record world : Type := World {
  files : gmap path file;
  stdout : list str;   (* the lines printed so far, oldest first *)
}.

Inductive exn : Type :=
  | FileNotFoundError
  | PermissionError
  | UnicodeDecodeError
  | UnicodeEncodeError
  | JSONDecodeError
  | TypeError
  | IndexError
  | SystemExit (code : N).

Inductive outcome (A : Type) : Type :=
  | Return (a : A)
  | Raise (e : exn).
Arguments Return {A} a.
Arguments Raise {A} e.

(** A computation runs in a world and returns or raises, leaving a world. *)
Definition Py (A : Type) : Type := world → outcome A * world.

Definition py_ret {A} (a : A) : Py A := fun w => (Return a, w).
Definition py_raise {A} (e : exn) : Py A := fun w => (Raise e, w).
Definition py_bind {A B} (m : Py A) (k : A → Py B) : Py B :=
  fun w =>
    match m w with
    | (Return a, w') => k a w'
    | (Raise e, w') => (Raise e, w')
    end.

Declare Scope py_scope.
Delimit Scope py_scope with py.
Notation "x <- m ;; k" := (py_bind m (fun x => k))
  (at level 100, m at next level, right associativity) : py_scope.
Notation "m ;; k" := (py_bind m (fun _ => k))
  (at level 100, right associativity) : py_scope.

Definition set_file (p : path) (f : file) : Py unit :=
  fun w => (Return (), World (<[p := f]> (files w)) (stdout w)).

(** [with open(p, 'r') as f: f.read()], for a path that names a regular
    file or nothing: [open] on a directory ([IsADirectoryError]) and the
    other errors of the operating system are not modelled. *)
Definition read_text (p : path) : Py str :=
  fun w =>
    match files w !! p with
    | None => (Raise FileNotFoundError, w)
    | Some f =>
        if readable f then
          match decode_text (content f) with
          | Some text => (Return text, w)
          | None => (Raise UnicodeDecodeError, w)
          end
        else (Raise PermissionError, w)
    end.

(** [open(p, 'w')]: the file is created or truncated. *)
Definition open_truncate (p : path) : Py unit :=
  fun w =>
    match files w !! p with
    | None => set_file p (File true true []) w
    | Some f =>
        if writable f then set_file p (File (readable f) true []) w
        else (Raise PermissionError, w)
    end.

(** [f.write(text)] on the file just opened, and its close. *)
Definition write_text (p : path) (text : str) : Py unit :=
  fun w =>
    match encode_text text, files w !! p with
    | Some bs, Some f => set_file p (File (readable f) (writable f) bs) w
    | _, _ => (Raise UnicodeEncodeError, w)
    end.

Definition print (line : str) : Py unit :=
  fun w => (Return (), World (files w) (stdout w ++ [line])).

(** ** The script *)

Section Script.
Context {FM : FloatModel}.
Local Open Scope py_scope.

(** [json.load(f)] for the file at [p], opened for reading.  On a text
    that is not [within_limits] CPython may raise [ValueError] or
    [RecursionError] where this returns or raises [JSONDecodeError]. *)
Definition json_load (p : path) : Py value :=
  text <- read_text p ;;
  match json_loads text with
  | Some v => py_ret v
  | None => py_raise JSONDecodeError
  end.

(** [json.dump(o, f, indent=indent)] for the file at [p], opened for
    writing. *)
Definition json_dump (o : value) (p : path) (indent : nat) : Py unit :=
  open_truncate p ;;
  write_text p (json_dumps indent o).

(** [o[k] = v]: only a [dict] takes a [str] key. *)
Definition setitem (o : value) (k : str) (v : value) : Py value :=
  match o with
  | VDict d => py_ret (VDict (dict_set d k v))
  | _ => py_raise TypeError
  end.

(** The dictionary literal assigned to [config['storage']]. *)
Definition storage_block (storage_path : str) : value :=
  VDict
    [(lit "active", VStr (lit "optimized-local"));
     (lit "optimized-local",
      VDict
        [(lit "storagePath", VStr storage_path);
         (lit "sizes", VList [VInt 600; VInt 1000; VInt 1600; VInt 2000]);
         (lit "quality", VInt 82);
         (lit "keepOriginal", VBool true)])].

(** The line printed on success. *)
Definition confirmation : str := lit "Storage adapter configured successfully".

Definition configure_storage (config_file : path) (storage_path : str) : Py unit :=
  config <- json_load config_file ;;
  config <- setitem config (lit "storage") (storage_block storage_path) ;;
  json_dump config config_file 2 ;;
  print confirmation.

(** [sys.argv[i]] *)
Definition argv_get (argv : list str) (i : nat) : Py str :=
  match argv !! i with
  | Some a => py_ret a
  | None => py_raise IndexError
  end.

Definition usage (prog : str) : str :=
  lit "Usage: " ++ prog ++ lit " <config_file> <storage_path>".

(** The [__main__] block, for [sys.argv = argv]. *)
Definition main (argv : list str) : Py unit :=
  if bool_decide (length argv ≠ 3%nat) then
    prog <- argv_get argv 0 ;;
    print (usage prog) ;;
    py_raise (SystemExit 1)
  else
    config_file <- argv_get argv 1 ;;
    storage_path <- argv_get argv 2 ;;
    configure_storage config_file storage_path.

(** The document the script writes for the document [d] it read. *)
Definition patched (d : dict) (storage_path : str) : value :=
  VDict (dict_set d (lit "storage") (storage_block storage_path)).

(** The world a successful run leaves: the file rewritten, one line
    printed. *)
Definition configured (w : world) (config_file : path) (d : dict)
    (storage_path : str) : world :=
  World
    (<[config_file :=
         File true true (map byte_of_N (json_dumps 2 (patched d storage_path)))]>
       (files w))
    (stdout w ++ [confirmation]).

(** What is on disk at [p], parsed as [json.load] would, whatever the
    permissions of the file. *)
Definition reread (w : world) (p : path) : option value :=
  match files w !! p with
  | Some f =>
      match decode_text (content f) with
      | Some text => json_loads text
      | None => None
      end
  | None => None
  end.

(** The same with a parser of the JSON grammar proper. *)
Definition reread_standard (w : world) (p : path) : option value :=
  match files w !! p with
  | Some f =>
      match decode_text (content f) with
      | Some text => standard_json_loads text
      | None => None
      end
  | None => None
  end.

(** The members of a document other than the one at key [k]. *)
Definition others (k : str) (d : dict) : dict :=
  filter (fun kv => kv.1 ≠ k) d.

(** The exit status of the interpreter: 0 when the script ends, the code of
    [sys.exit], 1 for an uncaught exception. *)
Definition exit_status (o : outcome unit) : N :=
  match o with
  | Return _ => 0
  | Raise (SystemExit n) => n
  | Raise _ => 1
  end.

End Script.

(** * Facts about the model *)

(** ** Comparisons on code points *)

(** Turn the boolean tests of the model into arithmetic facts. *)
Ltac bools :=
  repeat match goal with
    | H : _ && _ = true |- _ => apply andb_true_iff in H; destruct H
    | H : _ || _ = false |- _ => apply orb_false_iff in H; destruct H
    | H : negb _ = true |- _ => apply negb_true_iff in H
    | H : negb _ = false |- _ => apply negb_false_iff in H
    | H : (_ =? _) = true |- _ => apply N.eqb_eq in H
    | H : (_ =? _) = false |- _ => apply N.eqb_neq in H
    | H : (_ <? _) = true |- _ => apply N.ltb_lt in H
    | H : (_ <? _) = false |- _ => apply N.ltb_ge in H
    | H : (_ <=? _) = true |- _ => apply N.leb_le in H
    | H : (_ <=? _) = false |- _ => apply N.leb_gt in H
    end.

(** Quotients and remainders become opaque numbers, their defining
    equations having been posed beforehand. *)
Ltac hide_divmod :=
  repeat match goal with
    | |- context [N.div ?a ?b] =>
        let q := fresh "q" in set (q := N.div a b) in *; clearbody q
    | |- context [N.modulo ?a ?b] =>
        let r := fresh "r" in set (r := N.modulo a b) in *; clearbody r
    | H : context [N.div ?a ?b] |- _ =>
        let q := fresh "q" in set (q := N.div a b) in *; clearbody q
    | H : context [N.modulo ?a ?b] |- _ =>
        let r := fresh "r" in set (r := N.modulo a b) in *; clearbody r
    end.
Ltac dlia := hide_divmod; lia.

(** Decide one comparison of the goal, arithmetic closing the dead branch. *)
Ltac cmp :=
  match goal with
  | |- context [?a =? ?b] => destruct (N.eqb_spec a b); try dlia
  | |- context [?a <? ?b] => destruct (N.ltb_spec a b); try dlia
  | |- context [?a <=? ?b] => destruct (N.leb_spec a b); try dlia
  end.

Ltac cmps := repeat (cmp; simpl).


(** ** Decimal digits *)

Lemma N_of_digits_snoc (l : str) (c : N) :
  N_of_digits (l ++ [c]) = N_of_digits l * 10 + (c - 48).
Proof. unfold N_of_digits. by rewrite fold_left_app. Qed.

Lemma digits_fuel_app (f : nat) (n : N) (acc : str) :
  digits_fuel f n acc = digits_fuel f n [] ++ acc.
Proof.
  revert n acc. induction f as [|f IH]; intros n acc; simpl; [done|].
  destruct (n <? 10); [done|].
  rewrite IH, (IH _ [_]). by rewrite <- app_assoc.
Qed.

Lemma digits_fuel_S (f : nat) (n : N) (acc : str) :
  digits_fuel (S f) n acc =
  if n <? 10 then (48 + n mod 10) :: acc
  else digits_fuel f (n / 10) ((48 + n mod 10) :: acc).
Proof. done. Qed.

Lemma digits_fuel_spec (f : nat) (n : N) :
  n < 2 ^ N.of_nat (S f) →
  N_of_digits (digits_fuel (S f) n []) = n
  ∧ forallb is_digit (digits_fuel (S f) n []) = true
  ∧ (n ≠ 0 → ∃ c r, digits_fuel (S f) n [] = c :: r ∧ 49 <= c <= 57)
  ∧ (n = 0 → digits_fuel (S f) n [] = [48]).
Proof.
  revert n. induction f as [|f IH]; intros n Hn.
  - assert (n < 2) by (simpl in Hn; lia).
    simpl. destruct (N.ltb_spec n 10); [|lia].
    assert (n = 0 ∨ n = 1) as [-> | ->] by lia; cbn; repeat split; try done.
    intros _. exists 49, []. split; [done|lia].
  - rewrite (digits_fuel_S (S f)). destruct (N.ltb_spec n 10) as [Hlt|Hge].
    + rewrite N.mod_small by lia. unfold N_of_digits. simpl.
      unfold is_digit. repeat split.
      * lia.
      * cmps; done.
      * intros. exists (48 + n), []. split; [done|lia].
      * by intros ->.
    + rewrite digits_fuel_app.
      assert (n / 10 < 2 ^ N.of_nat (S f)) as Hq.
      { apply N.Div0.div_lt_upper_bound.
        rewrite (Nat2N.inj_succ (S f)), N.pow_succ_r' in Hn. lia. }
      destruct (IH _ Hq) as (E1 & E2 & E3 & _).
      pose proof (N.mod_lt n 10 ltac:(lia)) as Hm.
      repeat split.
      * rewrite N_of_digits_snoc, E1.
        pose proof (N.div_mod n 10 ltac:(lia)). dlia.
      * rewrite forallb_app, E2. simpl. unfold is_digit. cmps; done.
      * intros _.
        assert (n / 10 ≠ 0) as Hnz.
        { intros E0. apply N.div_small_iff in E0; lia. }
        destruct (E3 Hnz) as (c & r & -> & Hc).
        exists c, (r ++ [48 + n mod 10]). split; [done|lia].
      * lia.
Qed.

Lemma digits_bound (n : N) : n < 2 ^ N.of_nat (S (N.to_nat (N.log2 n))).
Proof.
  rewrite Nat2N.inj_succ, N2Nat.id.
  destruct (N.eq_dec n 0) as [->|Hn]; [done|].
  apply N.log2_spec. lia.
Qed.

Lemma N_of_digits_digits (n : N) : N_of_digits (digits n) = n.
Proof. apply digits_fuel_spec, digits_bound. Qed.

Lemma digits_all_digit (n : N) : forallb is_digit (digits n) = true.
Proof. apply digits_fuel_spec, digits_bound. Qed.

Lemma digits_zero : digits 0 = [48].
Proof. done. Qed.

Lemma digits_head (n : N) :
  n ≠ 0 → ∃ c r, digits n = c :: r ∧ 49 <= c <= 57.
Proof. apply digits_fuel_spec, digits_bound. Qed.

(** ** Hexadecimal escapes *)

Lemma hex_value_digit (d : N) : d < 16 → hex_value (hex_digit d) = Some d.
Proof.
  intros Hd. unfold hex_value, hex_digit, is_digit.
  destruct (N.ltb_spec d 10); cmps; f_equal; lia.
Qed.

Lemma unhex4_hex4 (n : N) :
  n < 0x10000 →
  match hex4 n with
  | [a; b; c; d] => unhex4 a b c d = Some n
  | _ => False
  end.
Proof.
  intros Hn. unfold hex4, unhex4.
  rewrite !hex_value_digit by (apply N.mod_lt; lia). simpl. f_equal.
  pose proof (N.div_mod n 16 ltac:(lia)).
  pose proof (N.div_mod (n / 16) 16 ltac:(lia)).
  pose proof (N.div_mod (n / 16 / 16) 16 ltac:(lia)).
  rewrite !N.Div0.div_div in *.
  change (16 * 16) with 256 in *. change (256 * 16) with 4096 in *.
  assert (n / 4096 < 16) by (apply N.Div0.div_lt_upper_bound; lia).
  rewrite (N.mod_small (n / 4096)) by lia. dlia.
Qed.

(** ** Escaped strings read back *)

Lemma unhex4_hex_digits (n : N) :
  n < 0x10000 →
  unhex4 (hex_digit (n / 4096 mod 16)) (hex_digit (n / 256 mod 16))
         (hex_digit (n / 16 mod 16)) (hex_digit (n mod 16)) = Some n.
Proof. intros Hn. apply (unhex4_hex4 n Hn). Qed.

(** The shapes [escape_char] writes. *)
Inductive escape_shape (c : N) : str → Prop :=
  | shape_plain :
      c ≠ 34 → c ≠ 92 → 32 <= c <= 126 → escape_shape c [c]
  | shape_short (x : N) :
      x ≠ 117 → backslash x = Some c → escape_shape c [92; x]
  | shape_u :
      c < 0x10000 → escape_shape c (92 :: 117 :: hex4 c)
  | shape_pair (hi lo : N) :
      is_high hi = true → is_low lo = true → join_surrogates hi lo = c →
      escape_shape c (92 :: 117 :: hex4 hi ++ 92 :: 117 :: hex4 lo).

Lemma escape_char_shape (c : N) :
  is_codepoint c = true → escape_shape c (escape_char c).
Proof.
  unfold is_codepoint. intros Hc. bools. unfold escape_char.
  repeat (cmp; [subst; by apply shape_short|]).
  destruct (N.leb_spec 32 c); simpl.
  - destruct (N.leb_spec c 126); simpl.
    + by apply shape_plain.
    + cmp; [by apply shape_u|].
      pose proof (N.div_mod (c - 65536) 1024 ltac:(lia)).
      assert ((c - 65536) / 1024 < 1024)
        by (apply N.Div0.div_lt_upper_bound; lia).
      pose proof (N.mod_lt (c - 65536) 1024 ltac:(lia)).
      rewrite (N.mod_small ((c - 65536) / 1024)) by lia.
      apply shape_pair; unfold is_high, is_low, join_surrogates.
      * apply andb_true_iff; split; [apply N.leb_le|apply N.leb_le]; dlia.
      * apply andb_true_iff; split; [apply N.leb_le|apply N.leb_le]; dlia.
      * dlia.
  - cmp. by apply shape_u.
Qed.

Lemma scan_plain (c : N) (e : str) :
  c ≠ 34 → c ≠ 92 → 32 <= c → scanstring (c :: e) = prepend c (scanstring e).
Proof. intros. simpl. by cmps. Qed.

Lemma scan_short (c x : N) (e : str) :
  x ≠ 117 → backslash x = Some c →
  scanstring (92 :: x :: e) = prepend c (scanstring e).
Proof. intros ? Hb. simpl. cmp. by rewrite Hb. Qed.

(** A text that does not open with the escape of a low surrogate. *)
Inductive no_low_escape : str → Prop :=
  | nle_head (b : N) (e : str) : b ≠ 92 → no_low_escape (b :: e)
  | nle_next (x : N) (e : str) : x ≠ 117 → no_low_escape (92 :: x :: e)
  | nle_u (w : N) (e : str) :
      w < 0x10000 → is_low w = false → no_low_escape (92 :: 117 :: hex4 w ++ e).

Lemma scan_u (c : N) (e : str) :
  c < 0x10000 → (is_high c = true → no_low_escape e) →
  scanstring (92 :: 117 :: hex4 c ++ e) = prepend c (scanstring e).
Proof.
  intros Hc He. unfold hex4.
  change (scanstring (92 :: 117 :: ?l ++ e)) with
    (match unhex4 (hex_digit (c / 4096 mod 16)) (hex_digit (c / 256 mod 16))
             (hex_digit (c / 16 mod 16)) (hex_digit (c mod 16)) with
     | None => None
     | Some uni =>
         if is_high uni then
           match e with
           | b :: u :: l1 :: l2 :: l3 :: l4 :: r3 =>
               if (b =? 92) && (u =? 117) then
                 match unhex4 l1 l2 l3 l4 with
                 | None => None
                 | Some uni2 =>
                     if is_low uni2
                     then prepend (join_surrogates uni uni2) (scanstring r3)
                     else prepend uni (scanstring e)
                 end
               else prepend uni (scanstring e)
           | _ => prepend uni (scanstring e)
           end
         else prepend uni (scanstring e)
     end).
  rewrite unhex4_hex_digits by done.
  destruct (is_high c) eqn:Hh; [|done].
  destruct (He eq_refl) as [b e' Hb|x e' Hx|w e' Hw Hlow].
  - destruct e' as [|? [|? [|? [|? [|? ?]]]]]; try done.
    by destruct (N.eqb_spec b 92).
  - destruct e' as [|? [|? [|? [|? ?]]]]; try done.
    destruct (N.eqb_spec x 117); [done|]. by rewrite andb_false_r.
  - unfold hex4. cbn [app]. rewrite unhex4_hex_digits by done.
    by rewrite Hlow.
Qed.

Lemma scan_pair (hi lo : N) (e : str) :
  is_high hi = true → is_low lo = true →
  scanstring (92 :: 117 :: hex4 hi ++ 92 :: 117 :: hex4 lo ++ e)
  = prepend (join_surrogates hi lo) (scanstring e).
Proof.
  intros Hh Hl.
  assert (hi < 0x10000 ∧ lo < 0x10000) as [? ?]
    by (unfold is_high, is_low in *; bools; lia).
  unfold hex4. cbn [app scanstring].
  rewrite !N.eqb_refl. cbn [andb].
  rewrite !unhex4_hex_digits by done. by rewrite Hh, Hl.
Qed.

Lemma escape_no_low_escape (c : N) (e : str) :
  is_codepoint c = true → is_low c = false →
  no_low_escape (escape_char c ++ e).
Proof.
  intros Hc Hl. destruct (escape_char_shape c Hc) as [| x | | hi lo Hh].
  - apply nle_head. lia.
  - by apply nle_next.
  - by apply nle_u.
  - cbn [app]. rewrite <- app_assoc. apply nle_u.
    + unfold is_high in Hh. bools. lia.
    + unfold is_high, is_low in *. bools.
      apply andb_false_iff. left. apply N.leb_gt. lia.
Qed.

Lemma is_str_cons (c : N) (s : str) :
  is_str (c :: s) = true ↔ is_codepoint c = true ∧ is_str s = true.
Proof. apply andb_true_iff. Qed.

Lemma join_pairs_cons2 (h l : N) (t : str) :
  join_pairs (h :: l :: t) =
  if is_high h && is_low l then join_surrogates h l :: join_pairs t
  else h :: join_pairs (l :: t).
Proof. done. Qed.

Lemma no_pair_cons2 (h l : N) (t : str) :
  no_pair (h :: l :: t) = negb (is_high h && is_low l) && no_pair (l :: t).
Proof. done. Qed.

(** Reading an escaped string back joins its surrogate pairs and nothing
    else. *)
Lemma scanstring_escaped (s : str) (rest : str) :
  is_str s = true →
  scanstring (flat_map escape_char s ++ 34 :: rest) = Some (join_pairs s, rest).
Proof.
  remember (length s) as n eqn:Hn. revert s Hn.
  induction (lt_wf n) as [n _ IH]. intros s -> Hs.
  destruct s as [|c r]; [done|].
  apply is_str_cons in Hs as [Hc Hr].
  assert (scanstring (flat_map escape_char r ++ 34 :: rest)
          = Some (join_pairs r, rest)) as IHr.
  { apply (IH (length r)); simpl; [lia|done..]. }
  cbn [flat_map]. rewrite <- app_assoc.
  destruct r as [|l t].
  - (* the last character *)
    cbn [flat_map app join_pairs] in *.
    destruct (escape_char_shape c Hc) as [| x | | hi lo Hh Hl Hj]; cbn [app].
    + rewrite scan_plain by lia. done.
    + erewrite scan_short by done. done.
    + rewrite scan_u; [done..|]. intros _. by apply nle_head.
    + rewrite <- app_assoc. cbn [app]. rewrite scan_pair by done.
      by rewrite Hj.
  - apply is_str_cons in Hr as [Hl Ht].
    destruct (is_high c && is_low l) eqn:Hpair.
    + (* a high surrogate and a low one: read back as one code point *)
      apply andb_true_iff in Hpair as [Hh Hlo].
      assert (escape_char c = 92 :: 117 :: hex4 c) as ->.
      { unfold escape_char, is_high in *. bools. by cmps. }
      assert (escape_char l = 92 :: 117 :: hex4 l) as El.
      { unfold escape_char, is_low in *. bools. by cmps. }
      cbn [flat_map]. rewrite El. cbn [app]. rewrite <- ?app_assoc. cbn [app].
      rewrite <- ?app_assoc.
      rewrite scan_pair by done.
      rewrite (IH (length t)); [|simpl; lia|done..].
      rewrite join_pairs_cons2. by rewrite Hh, Hlo.
    + assert (join_pairs (c :: l :: t) = c :: join_pairs (l :: t)) as ->.
      { rewrite join_pairs_cons2. by rewrite Hpair. }
      destruct (escape_char_shape c Hc) as [| x | | hi lo Hh Hlo Hj]; cbn [app].
      * rewrite scan_plain by lia. by rewrite IHr.
      * erewrite scan_short by done. by rewrite IHr.
      * rewrite scan_u; [by rewrite IHr|done|].
        intros Hh. rewrite Hh in Hpair. cbn [flat_map]. rewrite <- app_assoc.
        by apply escape_no_low_escape.
      * rewrite <- app_assoc. cbn [app]. rewrite scan_pair by done.
        by rewrite Hj, IHr.
Qed.

Lemma join_pairs_id (s : str) : no_pair s = true → join_pairs s = s.
Proof.
  induction s as [|h r IH]; [done|]. destruct r as [|l t]; [done|].
  rewrite no_pair_cons2, join_pairs_cons2. intros Hs. bools.
  destruct (is_high h && is_low l); [done|]. by rewrite IH.
Qed.

Lemma join_surrogates_range (h l : N) :
  is_high h = true → is_low l = true →
  0x10000 <= join_surrogates h l < 0x110000.
Proof. unfold is_high, is_low, join_surrogates. intros. bools. lia. Qed.

Lemma join_pairs_head (c : N) (r : str) :
  ∃ c' r', join_pairs (c :: r) = c' :: r' ∧ (c' = c ∨ 0x10000 <= c').
Proof.
  destruct r as [|l t]; [by exists c, []; split; [|left]|].
  rewrite join_pairs_cons2.
  destruct (is_high c && is_low l) eqn:E; [|by eexists _, _; split; [|left]].
  bools. eexists _, _. split; [done|]. right. by apply join_surrogates_range.
Qed.

Lemma no_pair_join_pairs (s : str) : no_pair (join_pairs s) = true.
Proof.
  remember (length s) as n eqn:Hn. revert s Hn.
  induction (lt_wf n) as [n _ IH]. intros s ->.
  destruct s as [|h [|l t]]; [done..|].
  rewrite join_pairs_cons2. destruct (is_high h && is_low l) eqn:E.
  - bools. pose proof (join_surrogates_range h l ltac:(done) ltac:(done)).
    pose proof (IH (length t) ltac:(simpl; lia) t eq_refl) as IHt.
    destruct (join_pairs t) as [|c' t'] eqn:Et; [done|].
    rewrite no_pair_cons2, IHt.
    unfold is_high at 1. cmps; done.
  - pose proof (IH (length (l :: t)) ltac:(simpl; lia) (l :: t) eq_refl) as IHr.
    destruct (join_pairs_head l t) as (c' & t' & Er & Hhead).
    rewrite Er in IHr |- *.
    rewrite no_pair_cons2, IHr, andb_true_r.
    apply negb_true_iff. apply andb_false_iff in E as [E|E].
    + by rewrite E.
    + destruct Hhead as [->|Hc'].
      * rewrite E. apply andb_false_r.
      * unfold is_low. cmps; apply andb_false_r.
Qed.

Lemma is_str_join_pairs (s : str) :
  is_str s = true → is_str (join_pairs s) = true.
Proof.
  remember (length s) as n eqn:Hn. revert s Hn.
  induction (lt_wf n) as [n _ IH]. intros s -> Hs.
  destruct s as [|h [|l t]]; [done..|].
  apply is_str_cons in Hs as [Hh Hr].
  rewrite join_pairs_cons2. destruct (is_high h && is_low l) eqn:E.
  - apply is_str_cons in Hr as [_ Ht]. bools. apply is_str_cons. split.
    + pose proof (join_surrogates_range h l ltac:(done) ltac:(done)).
      apply N.ltb_lt. lia.
    + apply (IH (length t)); [simpl; lia|done..].
  - apply is_str_cons. split; [done|].
    apply (IH (length (l :: t))); [simpl; lia|done..].
Qed.

Lemma escape_char_joined (h l : N) :
  is_high h = true → is_low l = true →
  escape_char (join_surrogates h l) = escape_char h ++ escape_char l.
Proof.
  intros Hh Hl.
  pose proof (join_surrogates_range h l Hh Hl).
  unfold is_high, is_low in *. bools.
  assert (escape_char h = 92 :: 117 :: hex4 h) as ->
    by (unfold escape_char; by cmps).
  assert (escape_char l = 92 :: 117 :: hex4 l) as ->
    by (unfold escape_char; by cmps).
  unfold escape_char. cmps.
  assert (join_surrogates h l - 65536 = (h - 0xD800) * 1024 + (l - 0xDC00))
    as -> by (unfold join_surrogates; lia).
  assert (((h - 0xD800) * 1024 + (l - 0xDC00)) / 1024 = h - 0xD800) as ->
    by (symmetry; apply (N.div_unique _ _ _ (l - 0xDC00)); lia).
  assert (((h - 0xD800) * 1024 + (l - 0xDC00)) mod 1024 = l - 0xDC00) as ->
    by (symmetry; apply (N.mod_unique _ _ (h - 0xD800)); lia).
  rewrite (N.mod_small (h - 55296) 1024) by lia.
  by replace (55296 + (h - 55296)) with h by lia;
     replace (56320 + (l - 56320)) with l by lia.
Qed.

Lemma escape_join_pairs (s : str) :
  flat_map escape_char (join_pairs s) = flat_map escape_char s.
Proof.
  remember (length s) as n eqn:Hn. revert s Hn.
  induction (lt_wf n) as [n _ IH]. intros s ->.
  destruct s as [|h [|l t]]; [done..|].
  rewrite join_pairs_cons2. destruct (is_high h && is_low l) eqn:E.
  - bools. cbn [flat_map]. rewrite escape_char_joined by done.
    rewrite (IH (length t)); [|simpl; lia|done]. by rewrite <- app_assoc.
  - cbn [flat_map]. f_equal.
    apply (IH (length (l :: t))); [simpl; lia|done].
Qed.

Lemma encode_join_pairs (s : str) :
  encode_basestring_ascii (join_pairs s) = encode_basestring_ascii s.
Proof. unfold encode_basestring_ascii. by rewrite escape_join_pairs. Qed.

(** [scanstring] on what [encode_basestring_ascii] wrote, the opening quote
    taken. *)
Lemma scanstring_encoded (s rest : str) :
  is_str s = true → no_pair s = true →
  ∃ body, encode_basestring_ascii s = 34 :: body
          ∧ scanstring (body ++ rest) = Some (s, rest).
Proof.
  intros Hs Hp. exists (flat_map escape_char s ++ [34]). split; [done|].
  rewrite <- app_assoc. cbn [app]. rewrite scanstring_escaped by done.
  by rewrite join_pairs_id.
Qed.

(** ** Number literals *)

(** What follows a value in the text [json.dump] writes: nothing, a comma
    or a line feed. *)
Definition delimited (rest : str) : Prop :=
  match rest with
  | [] => True
  | c :: _ => c = 44 ∨ c = 10
  end.

Lemma span_digits_app (s rest ds r : str) :
  delimited rest → span_digits s = (ds, r) →
  span_digits (s ++ rest) = (ds, r ++ rest).
Proof.
  intros Hrest. revert ds r. induction s as [|c s IH]; intros ds r; simpl.
  - intros [= <- <-]. destruct rest as [|c rest]; [done|]. simpl.
    unfold is_digit. destruct Hrest as [-> | ->]; done.
  - destruct (is_digit c); [|by intros [= <- <-]].
    destruct (span_digits s) as [d r']. intros [= <- <-].
    by rewrite (IH d r' eq_refl).
Qed.

Lemma span_digits_consumed (s ds r : str) :
  span_digits s = (ds, r) → s = ds ++ r.
Proof.
  revert ds r. induction s as [|c s IH]; intros ds r; simpl.
  - by intros [= <- <-].
  - destruct (is_digit c); [|by intros [= <- <-]].
    destruct (span_digits s) as [d r']. intros [= <- <-].
    by rewrite (IH d r' eq_refl) at 1.
Qed.

Lemma span_digits_all (ds : str) :
  forallb is_digit ds = true → span_digits ds = (ds, []).
Proof.
  induction ds as [|c ds IH]; [done|]. simpl. intros H. bools.
  destruct (is_digit c); [|done]. by rewrite IH.
Qed.

Lemma match_unsigned_app (sg s rest i r : str) :
  delimited rest → match_unsigned sg s = Some (i, r) →
  match_unsigned sg (s ++ rest) = Some (i, r ++ rest).
Proof.
  intros Hrest. destruct s as [|d r1]; [done|]. simpl.
  destruct (d =? 48); [by intros [= <- <-]|].
  destruct (is_digit d); [|done].
  destruct (span_digits r1) as [ds r2] eqn:E. intros [= <- <-].
  by rewrite (span_digits_app _ _ _ _ Hrest E).
Qed.

Lemma match_unsigned_consumed (sg s i r : str) :
  match_unsigned sg s = Some (i, r) → sg ++ s = i ++ r.
Proof.
  destruct s as [|d r1]; [done|]. simpl.
  destruct (d =? 48); [intros [= <- <-]; by rewrite <- app_assoc|].
  destruct (is_digit d); [|done].
  destruct (span_digits r1) as [ds r2] eqn:E. intros [= <- <-].
  rewrite (span_digits_consumed _ _ _ E). by rewrite <- app_assoc.
Qed.

Lemma match_integer_app (s rest i r : str) :
  delimited rest → match_integer s = Some (i, r) →
  match_integer (s ++ rest) = Some (i, r ++ rest).
Proof.
  intros Hrest. destruct s as [|c s]; [done|].
  cbn [match_integer app]. destruct (c =? 45).
  - by apply match_unsigned_app.
  - by apply (match_unsigned_app [] (c :: s)).
Qed.

Lemma match_integer_consumed (s i r : str) :
  match_integer s = Some (i, r) → s = i ++ r.
Proof.
  destruct s as [|c s]; [done|]. cbn [match_integer]. destruct (c =? 45).
  - apply (match_unsigned_consumed [c]).
  - apply (match_unsigned_consumed []).
Qed.

Lemma match_frac_app (s rest r : str) (fr : option str) :
  delimited rest → match_frac s = (fr, r) →
  match_frac (s ++ rest) = (fr, r ++ rest).
Proof.
  intros Hrest. destruct s as [|c s]; simpl.
  - intros [= <- <-]. destruct rest as [|c rest]; [done|]. simpl.
    destruct Hrest as [-> | ->]; done.
  - destruct (c =? 46); [|by intros [= <- <-]].
    destruct (span_digits s) as [ds r'] eqn:E.
    rewrite (span_digits_app _ _ _ _ Hrest E).
    destruct ds; by intros [= <- <-].
Qed.

Lemma match_frac_consumed (s r : str) (fr : option str) :
  match_frac s = (fr, r) → s = opt_text fr ++ r.
Proof.
  destruct s as [|c s]; simpl; [by intros [= <- <-]|].
  destruct (c =? 46); [|by intros [= <- <-]].
  destruct (span_digits s) as [ds r'] eqn:E.
  apply span_digits_consumed in E as ->.
  destruct ds; by intros [= <- <-].
Qed.

Lemma match_exp_app (s rest r : str) (ex : option str) :
  delimited rest → match_exp s = (ex, r) →
  match_exp (s ++ rest) = (ex, r ++ rest).
Proof.
  intros Hrest. destruct s as [|e s]; simpl.
  - intros [= <- <-]. destruct rest as [|c rest]; [done|]. simpl.
    destruct Hrest as [-> | ->]; done.
  - destruct ((e =? 101) || (e =? 69)); [|by intros [= <- <-]].
    destruct s as [|c s]; simpl.
    + intros [= <- <-]. destruct rest as [|c rest]; [done|].
      destruct Hrest as [-> | ->]; done.
    + destruct ((c =? 43) || (c =? 45)).
      * destruct (span_digits s) as [ds r'] eqn:E.
        rewrite (span_digits_app _ _ _ _ Hrest E).
        destruct ds; by intros [= <- <-].
      * destruct (span_digits (c :: s)) as [ds r'] eqn:E.
        change (c :: s ++ rest) with ((c :: s) ++ rest).
        rewrite (span_digits_app _ _ _ _ Hrest E).
        destruct ds; by intros [= <- <-].
Qed.

Lemma match_exp_consumed (s r : str) (ex : option str) :
  match_exp s = (ex, r) → s = opt_text ex ++ r.
Proof.
  destruct s as [|e s]; simpl; [by intros [= <- <-]|].
  destruct ((e =? 101) || (e =? 69)); [|by intros [= <- <-]].
  destruct s as [|c s]; simpl; [by intros [= <- <-]|].
  destruct ((c =? 43) || (c =? 45)).
  - destruct (span_digits s) as [ds r'] eqn:E.
    apply span_digits_consumed in E as ->.
    destruct ds; by intros [= <- <-].
  - destruct (span_digits (c :: s)) as [ds r'] eqn:E.
    apply span_digits_consumed in E. rewrite E.
    destruct ds; by intros [= <- <-].
Qed.

Lemma match_number_app (s rest i r : str) (fr ex : option str) :
  delimited rest → match_number s = Some (i, fr, ex, r) →
  match_number (s ++ rest) = Some (i, fr, ex, r ++ rest).
Proof.
  intros Hrest. unfold match_number.
  destruct (match_integer s) as [[i0 r0]|] eqn:Ei; [|done].
  rewrite (match_integer_app _ _ _ _ Hrest Ei).
  destruct (match_frac r0) as [fr0 r1] eqn:Ef.
  rewrite (match_frac_app _ _ _ _ Hrest Ef).
  destruct (match_exp r1) as [ex0 r2] eqn:Ee.
  rewrite (match_exp_app _ _ _ _ Hrest Ee).
  by intros [= <- <- <- <-].
Qed.

Lemma match_number_consumed (s i r : str) (fr ex : option str) :
  match_number s = Some (i, fr, ex, r) →
  s = i ++ opt_text fr ++ opt_text ex ++ r.
Proof.
  unfold match_number.
  destruct (match_integer s) as [[i0 r0]|] eqn:Ei; [|done].
  destruct (match_frac r0) as [fr0 r1] eqn:Ef.
  destruct (match_exp r1) as [ex0 r2] eqn:Ee.
  intros [= <- <- <- <-].
  apply match_integer_consumed in Ei as ->.
  apply match_frac_consumed in Ef as ->.
  by apply match_exp_consumed in Ee as ->.
Qed.

Lemma match_unsigned_digits (sg : str) (c : N) (r : str) :
  49 <= c <= 57 → forallb is_digit r = true →
  match_unsigned sg (c :: r) = Some (sg ++ c :: r, []).
Proof.
  intros Hc Hr. unfold match_unsigned.
  destruct (N.eqb_spec c 48); [lia|].
  assert (is_digit c = true) as -> by (unfold is_digit; cmps; done).
  by rewrite span_digits_all.
Qed.

(** [int.__repr__] writes an integer literal. *)
Lemma match_number_digits (n : N) :
  match_number (digits n) = Some (digits n, None, None, []).
Proof.
  destruct (N.eq_dec n 0) as [->|Hn]; [done|].
  destruct (digits_head n Hn) as (c & r & E & Hc).
  pose proof (digits_all_digit n) as Hall. rewrite E in *.
  simpl in Hall. bools.
  unfold match_number. cbn [match_integer].
  destruct (N.eqb_spec c 45); [lia|].
  by rewrite match_unsigned_digits.
Qed.

Lemma match_number_int_repr (z : Z) :
  match_number (int_repr z) = Some (int_repr z, None, None, []).
Proof.
  destruct z as [|p|p]; [done|apply match_number_digits|].
  unfold int_repr.
  destruct (digits_head (N.pos p) ltac:(done)) as (c & r & E & Hc).
  pose proof (digits_all_digit (N.pos p)) as Hall. rewrite E in *.
  simpl in Hall. bools.
  unfold match_number, ch_minus. cbn [match_integer N.eqb Pos.eqb].
  by rewrite match_unsigned_digits.
Qed.

Lemma int_of_text_repr (z : Z) : int_of_text (int_repr z) = z.
Proof.
  destruct z as [|p|p]; [done| |].
  - unfold int_repr. change (Z.to_N (Z.pos p)) with (N.pos p).
    destruct (digits_head (N.pos p) ltac:(done)) as (c & r & E & Hc).
    unfold int_of_text. rewrite E. unfold ch_minus.
    destruct (N.eqb_spec c 45); [lia|].
    rewrite <- E, N_of_digits_digits. done.
  - unfold int_repr, int_of_text, ch_minus. simpl.
    by rewrite N_of_digits_digits.
Qed.

(** A float literal followed by a delimiter is matched whole, with the
    groups it has on its own. *)
Lemma float_literal_app (t rest : str) :
  is_float_literal t = true → delimited rest →
  ∃ i fr ex,
    match_number (t ++ rest) = Some (i, fr, ex, rest)
    ∧ (is_Some fr ∨ is_Some ex)
    ∧ i ++ opt_text fr ++ opt_text ex = t.
Proof.
  unfold is_float_literal. intros Hlit Hrest.
  destruct (match_number t) as [[[[i fr] ex] r]|] eqn:E; [|done].
  destruct r; [|done].
  exists i, fr, ex. split; [|split].
  - by rewrite (match_number_app _ _ _ _ _ _ Hrest E).
  - apply orb_true_iff in Hlit as [H|H]; apply bool_decide_eq_true in H; auto.
  - apply match_number_consumed in E. by rewrite !app_nil_r in E.
Qed.

(** ** Documents *)

Section Documents.
Context {FM : FloatModel}.

(** Induction over a value and the values inside it. *)
Section value_induction.
Variable P : value → Prop.
Hypothesis HNone : P VNone.
Hypothesis HBool : ∀ b, P (VBool b).
Hypothesis HInt : ∀ z, P (VInt z).
Hypothesis HFloat : ∀ f, P (VFloat f).
Hypothesis HStr : ∀ s, P (VStr s).
Hypothesis HList : ∀ l, Forall P l → P (VList l).
Hypothesis HDict : ∀ d, Forall (fun kv => P kv.2) d → P (VDict d).

Fixpoint value_nested_ind (v : value) : P v :=
  match v with
  | VNone => HNone
  | VBool b => HBool b
  | VInt z => HInt z
  | VFloat f => HFloat f
  | VStr s => HStr s
  | VList l =>
      HList l
        ((fix go (l : list value) : Forall P l :=
            match l with
            | [] => List.Forall_nil _
            | x :: xs => List.Forall_cons _ _ _ (value_nested_ind x) (go xs)
            end) l)
  | VDict d =>
      HDict d
        ((fix go (d : list (str * value)) : Forall (fun kv => P kv.2) d :=
            match d with
            | [] => List.Forall_nil _
            | (k, x) :: xs =>
                List.Forall_cons (fun kv => P kv.2) (k, x) xs
                  (value_nested_ind x) (go xs)
            end) d)
  end.
End value_induction.

(** *** Dictionaries *)

Lemma dict_set_fresh (d : dict) (k : str) (v : value) :
  k ∉ map fst d → dict_set d k v = d ++ [(k, v)].
Proof.
  induction d as [|[k' v'] d IH]; [done|]. simpl. intros Hk.
  apply not_elem_of_cons in Hk as [Hne Hk].
  destruct (decide (k' = k)); [done|]. by rewrite IH.
Qed.

Lemma dict_of_pairs_acc (acc pairs : dict) :
  NoDup (map fst (acc ++ pairs)) →
  fold_left (fun d kv => dict_set d kv.1 kv.2) pairs acc = acc ++ pairs.
Proof.
  revert acc. induction pairs as [|[k v] pairs IH]; intros acc Hnd; simpl.
  - by rewrite app_nil_r.
  - assert (k ∉ map fst acc) as Hk.
    { rewrite map_app in Hnd. apply NoDup_app in Hnd as (_ & Hd & _).
      intros Hin. apply (Hd k Hin). simpl. left. }
    rewrite dict_set_fresh by done.
    rewrite IH; rewrite <- app_assoc; done.
Qed.

Lemma dict_of_pairs_id (d : dict) :
  NoDup (map fst d) → dict_of_pairs d = d.
Proof. intros. by apply (dict_of_pairs_acc []). Qed.

Lemma dict_set_keys_NoDup (d : dict) (k : str) (v : value) :
  NoDup (map fst d) → NoDup (map fst (dict_set d k v)).
Proof.
  induction d as [|[k' v'] d IH]; simpl.
  - intros _. apply NoDup_singleton.
  - intros Hnd. apply NoDup_cons in Hnd as [Hk' Hnd].
    destruct (decide (k' = k)); simpl.
    + by apply NoDup_cons.
    + apply NoDup_cons. split; [|by apply IH].
      intros Hin. apply Hk'. clear IH Hnd Hk'.
      induction d as [|[k0 v0] d IH]; simpl in *.
      * apply list_elem_of_singleton in Hin. congruence.
      * destruct (decide (k0 = k)); [done|]. simpl in Hin.
        apply elem_of_cons in Hin as [->|Hin]; [left|right; by apply IH].
Qed.


Lemma dict_set_others (d : dict) (k : str) (v : value) :
  filter (fun kv => kv.1 ≠ k) (dict_set d k v) = filter (fun kv => kv.1 ≠ k) d.
Proof.
  induction d as [|[k' v'] d IH]; simpl.
  - rewrite filter_cons_False; [done|]. simpl. by intros H.
  - destruct (decide (k' = k)) as [->|Hne].
    + rewrite !filter_cons_False; simpl; [done|by intros H..].
    + rewrite !filter_cons_True by done. by rewrite IH.
Qed.

Lemma dict_set_set (d : dict) (k : str) (v w : value) :
  dict_set (dict_set d k v) k w = dict_set d k w.
Proof.
  induction d as [|[k' v'] d IH]; simpl.
  - by destruct (decide (k = k)).
  - destruct (decide (k' = k)) as [->|Hne]; simpl.
    + by destruct (decide (k = k)).
    + destruct (decide (k' = k)); [done|]. by rewrite IH.
Qed.

End Documents.

(** ** Reading back what [json.dump] wrote *)

Lemma skip_ws_stop (c : N) (s : str) :
  is_ws c = false → skip_ws (c :: s) = c :: s.
Proof. intros H. simpl. by rewrite H. Qed.

Lemma skip_ws_spaces (k : nat) (s : str) :
  skip_ws (repeat 32 k ++ s) = skip_ws s.
Proof. induction k as [|k IH]; [done|]. simpl. apply IH. Qed.

Lemma skip_ws_indent (indent level : nat) (s : str) :
  skip_ws (newline_indent indent level ++ s) = skip_ws s.
Proof. unfold newline_indent. simpl. apply skip_ws_spaces. Qed.

Lemma starts_with_cons_ne (a c : N) (p t : str) :
  a ≠ c → starts_with (a :: p) (c :: t) = None.
Proof. intros H. simpl. by destruct (N.eqb_spec a c). Qed.

Lemma match_unsigned_head (sg s i r : str) :
  match_unsigned sg s = Some (i, r) →
  ∃ c t, s = c :: t ∧ is_digit c = true.
Proof.
  destruct s as [|d r1]; [done|]. simpl. intros H. exists d, r1. split; [done|].
  destruct (N.eqb_spec d 48) as [->|]; [done|]. by destruct (is_digit d).
Qed.

Lemma match_number_head (s : str) q :
  match_number s = Some q →
  ∃ c t, s = c :: t ∧ (c = 45 ∨ is_digit c = true).
Proof.
  unfold match_number.
  destruct (match_integer s) as [[i r]|] eqn:E; [|done]. intros _.
  destruct s as [|c s]; [done|]. exists c, s. split; [done|].
  cbn [match_integer] in E. destruct (N.eqb_spec c 45); [by left|].
  apply match_unsigned_head in E as (c' & t & [= <- <-] & Hc). by right.
Qed.

Section ReadBack.
Context {FM : FloatModel}.

Lemma scan_number (ext : bool) (n : nat) (s i rest : str) (fr ex : option str) :
  match_number s = Some (i, fr, ex, rest) →
  scan_once ext (S n) s =
  match fr, ex with
  | None, None => Parsed (VInt (int_of_text i)) rest
  | _, _ => Parsed (VFloat (float_of_text (i ++ opt_text fr ++ opt_text ex))) rest
  end.
Proof.
  intros Hm. destruct (match_number_head _ _ Hm) as (c & t & -> & Hc).
  assert (c ≠ 34 ∧ c ≠ 123 ∧ c ≠ 91 ∧ c ≠ 110 ∧ c ≠ 116 ∧ c ≠ 102)
    as (? & ? & ? & ? & ? & ?).
  { destruct Hc as [->|Hc]; [done|]. unfold is_digit in Hc. bools. lia. }
  cbn [scan_once].
  destruct (N.eqb_spec c 34); [done|].
  destruct (N.eqb_spec c 123); [done|].
  destruct (N.eqb_spec c 91); [done|].
  change (lit "null") with [110; 117; 108; 108].
  change (lit "true") with [116; 114; 117; 101].
  change (lit "false") with [102; 97; 108; 115; 101].
  rewrite !starts_with_cons_ne by done.
  rewrite Hm. by destruct fr, ex.
Qed.

Lemma scan_int (ext : bool) (n : nat) (z : Z) (rest : str) :
  delimited rest →
  scan_once ext (S n) (int_repr z ++ rest) = Parsed (VInt z) rest.
Proof.
  intros Hrest.
  rewrite (scan_number ext n _ (int_repr z) rest None None).
  - by rewrite int_of_text_repr.
  - apply (match_number_app _ _ _ [] None None Hrest).
    apply match_number_int_repr.
Qed.

Lemma scan_finite_float (ext : bool) (n : nat) (x : double) (rest : str) :
  delimited rest →
  scan_once ext (S n) (float_repr x ++ rest) = Parsed (VFloat (Finite x)) rest.
Proof.
  intros Hrest.
  destruct (float_literal_app _ rest (float_repr_literal x) Hrest)
    as (i & fr & ex & Hm & Hsome & Htext).
  rewrite (scan_number ext n _ _ _ _ _ Hm).
  rewrite Htext, float_repr_round_trip.
  destruct Hsome as [[? ->]|[? ->]]; [done|by destruct fr].
Qed.

Lemma scan_float (ext : bool) (n : nat) (f : pyfloat double) (rest : str) :
  delimited rest → ext = true ∨ finite (VFloat f) = true →
  scan_once ext (S n) (floatstr f ++ rest) = Parsed (VFloat f) rest.
Proof.
  intros Hrest Hext. destruct f as [x| | |].
  - by apply scan_finite_float.
  - destruct Hext as [->|]; done.
  - destruct Hext as [->|]; done.
  - destruct Hext as [->|]; done.
Qed.

Lemma scan_str (ext : bool) (n : nat) (s rest : str) :
  is_text s = true →
  scan_once ext (S n) (encode_basestring_ascii s ++ rest) = Parsed (VStr s) rest.
Proof.
  unfold is_text. intros H. bools.
  unfold encode_basestring_ascii, ch_quote. rewrite <- app_comm_cons.
  cbn [scan_once N.eqb Pos.eqb]. rewrite <- app_assoc. cbn [app].
  rewrite scanstring_escaped by done. by rewrite join_pairs_id.
Qed.

End ReadBack.

(** Lists of characters as a head and an appended tail. *)
Tactic Notation "norm_app" :=
  repeat (rewrite <- app_assoc || rewrite <- app_comm_cons
          || rewrite app_nil_l).
Tactic Notation "norm_app" "in" hyp(H) :=
  repeat (rewrite <- app_assoc in H || rewrite <- app_comm_cons in H
          || rewrite app_nil_l in H).

Section Containers.
Context {FM : FloatModel}.

(** The scanner's equations, one call at a time. *)
Lemma elements_S (ext : bool) (n : nat) (s : str) :
  elements ext (S n) s =
  match scan_once ext n s with
  | Parsed v r =>
      match skip_ws r with
      | c :: r1 =>
          if c =? 93 then Parsed [v] r1
          else if c =? 44 then
            match elements ext n (skip_ws r1) with
            | Parsed l rest => Parsed (v :: l) rest
            | Malformed => Malformed
            | Starved => Starved
            end
          else Malformed
      | [] => Malformed
      end
  | Malformed => Malformed
  | Starved => Starved
  end.
Proof. done. Qed.

Lemma members_S (ext : bool) (n : nat) (s : str) :
  members ext (S n) s =
  match scanstring s with
  | Some (key, r) =>
      match skip_ws r with
      | c :: r1 =>
          if c =? 58 then
            match scan_once ext n (skip_ws r1) with
            | Parsed v r2 =>
                match skip_ws r2 with
                | c2 :: r3 =>
                    if c2 =? 125 then Parsed [(key, v)] r3
                    else if c2 =? 44 then
                      match skip_ws r3 with
                      | q :: r4 =>
                          if q =? 34 then
                            match members ext n r4 with
                            | Parsed l rest => Parsed ((key, v) :: l) rest
                            | Malformed => Malformed
                            | Starved => Starved
                            end
                          else Malformed
                      | [] => Malformed
                      end
                    else Malformed
                | [] => Malformed
                end
            | Malformed => Malformed
            | Starved => Starved
            end
          else Malformed
      | [] => Malformed
      end
  | None => Malformed
  end.
Proof. done. Qed.

Lemma scan_array (ext : bool) (n : nat) (r : str) :
  scan_once ext (S n) (91 :: r) =
  match skip_ws r with
  | c1 :: r1 =>
      if c1 =? 93 then Parsed (VList []) r1
      else
        match elements ext n (c1 :: r1) with
        | Parsed l rest => Parsed (VList l) rest
        | Malformed => Malformed
        | Starved => Starved
        end
  | [] => Malformed
  end.
Proof. done. Qed.

Lemma scan_object (ext : bool) (n : nat) (r : str) :
  scan_once ext (S n) (123 :: r) =
  match skip_ws r with
  | c1 :: r1 =>
      if c1 =? 125 then Parsed (VDict []) r1
      else if c1 =? 34 then
        match members ext n r1 with
        | Parsed pairs rest => Parsed (VDict (dict_of_pairs pairs)) rest
        | Malformed => Malformed
        | Starved => Starved
        end
      else Malformed
  | [] => Malformed
  end.
Proof. done. Qed.

(** Every value is written starting with a character that is not white
    space. *)
Lemma iterencode_head (indent : nat) (v : value) (level : nat) :
  ∃ c t, iterencode indent v level = c :: t ∧ is_ws c = false ∧ c ≠ 93.
Proof.
  assert (∀ s q, match_number s = Some q →
                 ∃ c t, s = c :: t ∧ is_ws c = false ∧ c ≠ 93) as Hnum.
  { intros s q Hq. destruct (match_number_head s q Hq) as (c & t & -> & Hc).
    exists c, t. split; [done|]. destruct Hc as [->|Hc]; [done|].
    unfold is_digit in Hc. bools. unfold is_ws. split; [by cmps|lia]. }
  destruct v as [|[]|z|[x| | |]|s|l|d]; cbn [iterencode floatstr];
    try by (eexists _, _; split; [reflexivity|]).
  - apply (Hnum _ _ (match_number_int_repr z)).
  - pose proof (float_repr_literal x) as Hlit. unfold is_float_literal in Hlit.
    destruct (match_number (float_repr x)) as [q|] eqn:E; [|done].
    by apply (Hnum _ _ E).
  - unfold encode_container.
    destruct (map _ l); by (eexists _, _; split; [reflexivity|]).
  - unfold encode_container.
    destruct (map _ d); by (eexists _, _; split; [reflexivity|]).
Qed.

Lemma skip_ws_iterencode (indent : nat) (v : value) (level : nat) (s : str) :
  skip_ws (iterencode indent v level ++ s) = iterencode indent v level ++ s.
Proof.
  destruct (iterencode_head indent v level) as (c & t & -> & Hc & _).
  by apply skip_ws_stop.
Qed.

Lemma join_items_cons (sep x y : str) (l : list str) :
  join_items sep (x :: y :: l) = x ++ sep ++ join_items sep (y :: l).
Proof. done. Qed.

Lemma join_items_head (sep x : str) (l : list str) (c : N) (t : str) :
  x = c :: t → ∃ t', join_items sep (x :: l) = c :: t'.
Proof.
  intros ->. destruct l; [by eexists|]. rewrite join_items_cons. by eexists.
Qed.

(** A value that is read back as it was written, whatever follows it in a
    document. *)
Definition reads_back (indent : nat) (v : value) : Prop :=
  ∀ ext fuel level rest,
    ext = true ∨ finite v = true →
    (size v ≤ fuel)%nat →
    delimited rest →
    scan_once ext fuel (iterencode indent v level ++ rest) = Parsed v rest.

Lemma elements_read_back (indent k m : nat) (l : list value) :
  l ≠ [] → Forall (reads_back indent) l →
  ∀ ext fuel rest,
    ext = true ∨ forallb finite l = true →
    (list_sum (map (fun x => S (size x)) l) ≤ fuel)%nat →
    elements ext fuel
      (join_items (44 :: newline_indent indent k)
         (map (fun x => iterencode indent x k) l)
       ++ 10 :: repeat 32 m ++ 93 :: rest)
    = Parsed l rest.
Proof.
  induction l as [|x l IH]; [done|]. intros _ Hall ext fuel rest Hext Hfuel.
  apply Forall_cons in Hall as [Hx Hl].
  assert (ext = true ∨ finite x = true) as Hextx.
  { destruct Hext as [?|H]; [by left|right]. simpl in H. by bools. }
  assert (ext = true ∨ forallb finite l = true) as Hextl.
  { destruct Hext as [?|H]; [by left|right]. simpl in H. by bools. }
  destruct fuel as [|n]; [simpl in Hfuel; lia|].
  simpl in Hfuel.
  rewrite elements_S.
  destruct l as [|y l'].
  - cbn [map join_items].
    rewrite Hx; [|done|lia|by right].
    change (10 :: repeat 32 m ++ 93 :: rest)
      with ((10 :: repeat 32 m) ++ 93 :: rest).
    change (10 :: repeat 32 m) with ([10] ++ repeat 32 m).
    rewrite <- app_assoc. cbn [app skip_ws is_ws N.eqb Pos.eqb orb].
    rewrite skip_ws_spaces. rewrite skip_ws_stop by done.
    done.
  - cbn [map]. rewrite join_items_cons. rewrite <- !app_assoc.
    cbn [app]. rewrite Hx; [|done|lia|by left].
    rewrite skip_ws_stop by done.
    cbn [N.eqb Pos.eqb]. rewrite skip_ws_indent.
    assert (skip_ws (join_items (44 :: newline_indent indent k)
                       (iterencode indent y k
                        :: map (fun x => iterencode indent x k) l')
                     ++ 10 :: repeat 32 m ++ 93 :: rest)
            = join_items (44 :: newline_indent indent k)
                (iterencode indent y k
                 :: map (fun x => iterencode indent x k) l')
              ++ 10 :: repeat 32 m ++ 93 :: rest) as ->.
    { destruct (iterencode_head indent y k) as (c & t & E & Hc & _).
      destruct (map _ l'); [cbn [join_items]|rewrite join_items_cons];
        rewrite E; by apply skip_ws_stop. }
    assert (list_sum (map (fun x => S (size x)) (y :: l')) ≤ n)%nat as Hn
      by (simpl in *; lia).
    pose proof (IH ltac:(done) Hl ext n rest Hextl Hn) as IH'.
    cbn [map] in IH'. by rewrite IH'.
Qed.


Lemma cons_tail_eq (a : N) (l1 l2 : str) : a :: l1 = a :: l2 → l1 = l2.
Proof. congruence. Qed.

Lemma members_read_back (indent k m : nat) (d : dict) :
  d ≠ [] →
  Forall (fun kv => reads_back indent kv.2) d →
  Forall (fun kv => is_text kv.1 = true) d →
  ∀ ext fuel rest body,
    ext = true
    ∨ forallb (fun kv => match kv with (_, x) => finite x end) d = true →
    (list_sum (map (fun kv => match kv with (_, x) => S (size x) end) d)
     ≤ fuel)%nat →
    join_items (44 :: newline_indent indent k)
      (map (fun kv =>
              match kv with
              | (key, x) =>
                  encode_basestring_ascii key ++ 58 :: 32 :: iterencode indent x k
              end) d)
    ++ 10 :: repeat 32 m ++ 125 :: rest = 34 :: body →
    members ext fuel body = Parsed d rest.
Proof.
  induction d as [|[key x] d IH]; [done|].
  intros _ Hall Hkeys ext fuel rest body Hext Hfuel Hbody.
  apply Forall_cons in Hall as [Hx Hd]. cbn [snd] in Hx.
  apply Forall_cons in Hkeys as [Hkey Hks]. cbn [fst] in Hkey.
  assert (ext = true ∨ finite x = true) as Hextx.
  { destruct Hext as [?|H]; [by left|right]. simpl in H. by bools. }
  assert (ext = true
          ∨ forallb (fun kv => match kv with (_, y) => finite y end) d = true)
    as Hextd.
  { destruct Hext as [?|H]; [by left|right]. simpl in H. by bools. }
  destruct fuel as [|n]; [simpl in Hfuel; lia|].
  simpl in Hfuel.
  unfold is_text in Hkey. bools.
  rewrite members_S.
  destruct d as [|[key' y] d'].
  - cbn [map join_items] in Hbody.
    unfold encode_basestring_ascii, ch_quote in Hbody.
    norm_app in Hbody.
    apply cons_tail_eq in Hbody as <-. norm_app.
    rewrite scanstring_escaped, join_pairs_id by done.
    rewrite skip_ws_stop by done. cbn [N.eqb Pos.eqb].
    cbn [skip_ws is_ws N.eqb Pos.eqb orb]. rewrite skip_ws_iterencode.
    rewrite Hx; [|done|lia|by right].
    cbn [skip_ws is_ws N.eqb Pos.eqb orb].
    rewrite skip_ws_spaces. rewrite skip_ws_stop by done. done.
  - cbn [map] in Hbody. rewrite join_items_cons in Hbody.
    unfold encode_basestring_ascii at 1, ch_quote in Hbody.
    norm_app in Hbody.
    apply cons_tail_eq in Hbody as <-. norm_app.
    rewrite scanstring_escaped, join_pairs_id by done.
    rewrite skip_ws_stop by done. cbn [N.eqb Pos.eqb].
    cbn [skip_ws is_ws N.eqb Pos.eqb orb]. rewrite skip_ws_iterencode.
    rewrite Hx; [|done|lia|by left].
    rewrite skip_ws_stop by done. cbn [N.eqb Pos.eqb].
    rewrite skip_ws_indent.
    assert (list_sum (map (fun kv => match kv with (_, z) => S (size z) end)
                        ((key', y) :: d')) ≤ n)%nat as Hn
      by (simpl in *; lia).
    assert (∃ body',
              join_items (44 :: newline_indent indent k)
                (map (fun kv =>
                        match kv with
                        | (key, x) =>
                            encode_basestring_ascii key
                              ++ 58 :: 32 :: iterencode indent x k
                        end) ((key', y) :: d'))
              ++ 10 :: repeat 32 m ++ 125 :: rest = 34 :: body')
      as [body' Hbody'].
    { cbn [map]. destruct (map _ d');
        [cbn [join_items]|rewrite join_items_cons];
        unfold encode_basestring_ascii at 1, ch_quote;
        norm_app; by eexists. }
    pose proof (IH ltac:(done) Hd Hks ext n rest body' Hextd Hn Hbody') as IH'.
    cbn [map] in Hbody'. rewrite Hbody'.
    rewrite skip_ws_stop by done. cbn [N.eqb Pos.eqb].
    by rewrite IH'.
Qed.

(** Every well-formed value is read back as it was written. *)
Lemma well_formed_reads_back (indent : nat) (v : value) :
  well_formed v = true → reads_back indent v.
Proof.
  induction v as [|b|z|f|s|l IHl|d IHd] using value_nested_ind;
    intros Hwf ext fuel level rest Hext Hfuel Hrest;
    (destruct fuel as [|n]; [simpl in Hfuel; lia|]).
  - done.
  - by destruct b.
  - by apply scan_int.
  - by apply scan_float.
  - by apply scan_str.
  - cbn [iterencode]. unfold encode_container.
    destruct l as [|x l]; [done|].
    assert (Forall (reads_back indent) (x :: l)) as Hall.
    { cbn [well_formed] in Hwf. rewrite forallb_forall in Hwf.
      rewrite Forall_forall in IHl |- *. intros y Hy. apply IHl; [done|].
      apply Hwf. by apply list_elem_of_In. }
    pose proof (elements_read_back indent (S level) (indent * level) (x :: l)
                  ltac:(done) Hall ext n rest) as Hels.
    cbn [map] in Hels |- *. norm_app. rewrite scan_array.
    rewrite skip_ws_indent.
    assert (∃ c t, join_items (44 :: newline_indent indent (S level))
                     (iterencode indent x (S level)
                      :: map (fun y => iterencode indent y (S level)) l)
                   = c :: t ∧ is_ws c = false ∧ c ≠ 93) as (c & t & Ej & Hc & Hc').
    { destruct (iterencode_head indent x (S level)) as (c & t & E & Hc).
      destruct (join_items_head (44 :: newline_indent indent (S level)) _
                  (map (fun y => iterencode indent y (S level)) l) c t E)
        as [t' Et'].
      by exists c, t'. }
    unfold newline_indent at 2. norm_app.
    rewrite Ej in Hels |- *. norm_app in Hels. norm_app.
    rewrite skip_ws_stop by done.
    destruct (N.eqb_spec c 93); [done|].
    rewrite Hels; [done|..].
    + destruct Hext as [?|H]; [by left|right]. by cbn [finite] in H.
    + cbn [size] in Hfuel. simpl in Hfuel |- *. lia.
  - cbn [iterencode]. unfold encode_container.
    destruct d as [|[key x] d]; [done|].
    cbn [well_formed] in Hwf. apply andb_true_iff in Hwf as [Hnd Hwf].
    apply bool_decide_eq_true in Hnd.
    assert (Forall (fun kv => reads_back indent kv.2) ((key, x) :: d)) as Hall.
    { rewrite forallb_forall in Hwf.
      rewrite Forall_forall in IHd |- *. intros [key' y] Hy. apply IHd; [done|].
      apply list_elem_of_In, Hwf in Hy. by bools. }
    assert (Forall (fun kv => is_text kv.1 = true) ((key, x) :: d)) as Hkeys.
    { rewrite forallb_forall in Hwf.
      rewrite Forall_forall. intros [key' y] Hy.
      apply list_elem_of_In, Hwf in Hy. by bools. }
    pose proof (members_read_back indent (S level) (indent * level)
                  ((key, x) :: d) ltac:(done) Hall Hkeys ext n rest) as Hmem.
    cbn [map] in Hmem |- *. norm_app. rewrite scan_object.
    rewrite skip_ws_indent.
    assert (∃ body,
              join_items (44 :: newline_indent indent (S level))
                ((encode_basestring_ascii key
                    ++ 58 :: 32 :: iterencode indent x (S level))
                 :: map (fun kv =>
                           match kv with
                           | (key, x) =>
                               encode_basestring_ascii key
                                 ++ 58 :: 32 :: iterencode indent x (S level)
                           end) d)
              ++ 10 :: repeat 32 (indent * level) ++ 125 :: rest = 34 :: body)
      as [body Hbody].
    { edestruct (join_items_head (44 :: newline_indent indent (S level))
                   (encode_basestring_ascii key
                      ++ 58 :: 32 :: iterencode indent x (S level))) as [t' ->];
        [by unfold encode_basestring_ascii, ch_quote; norm_app|].
      norm_app. by eexists. }
    unfold newline_indent at 2. norm_app. rewrite Hbody.
    rewrite skip_ws_stop by done. cbn [N.eqb Pos.eqb].
    rewrite (Hmem body); [by rewrite dict_of_pairs_id|..|done].
    + destruct Hext as [?|H]; [by left|right]. by cbn [finite] in H.
    + cbn [size] in Hfuel. simpl in Hfuel |- *. lia.
Qed.

End Containers.

Section Loads.
Context {FM : FloatModel}.

(** *** The fuel [json.loads] gives the scanner is enough *)

Lemma join_items_length (sep : str) (items : list str) :
  (1 ≤ length sep)%nat →
  (list_sum (map (fun x => S (length x)) items)
   ≤ S (length (join_items sep items)))%nat.
Proof.
  intros Hsep. induction items as [|x [|y l] IH]; [simpl; lia..|].
  rewrite join_items_cons, !length_app.
  remember (join_items sep (y :: l)) as j. simpl in IH |- *. lia.
Qed.

Lemma list_sum_le {A} (f g : A → nat) (l : list A) :
  Forall (fun x => f x ≤ g x)%nat l →
  (list_sum (map f l) ≤ list_sum (map g l))%nat.
Proof. induction 1; simpl; lia. Qed.

Lemma encode_container_length (o c : N) (indent level : nat) (items : list str) :
  (S (list_sum (map (fun x => S (length x)) items))
   ≤ length (encode_container o c indent level items))%nat.
Proof.
  unfold encode_container. destruct items as [|x l]; [simpl; lia|].
  pose proof (join_items_length (44 :: newline_indent indent (S level)) (x :: l)
                ltac:(simpl; lia)).
  cbn [length]. rewrite !length_app. cbn [length newline_indent]. lia.
Qed.

Lemma iterencode_nonempty (indent : nat) (v : value) (level : nat) :
  (1 ≤ length (iterencode indent v level))%nat.
Proof.
  destruct (iterencode_head indent v level) as (c & t & -> & _). simpl. lia.
Qed.

Lemma size_le_length (indent : nat) (v : value) (level : nat) :
  (size v ≤ length (iterencode indent v level))%nat.
Proof.
  revert level.
  induction v as [|b|z|f|s|l IHl|d IHd] using value_nested_ind; intros level;
    try apply iterencode_nonempty.
  - cbn [iterencode size].
    etransitivity; [|apply encode_container_length].
    apply le_n_S. rewrite map_map. apply list_sum_le.
    eapply Forall_impl; [exact IHl|]. intros x Hx. simpl.
    apply le_n_S, Hx.
  - cbn [iterencode size].
    etransitivity; [|apply encode_container_length].
    apply le_n_S. rewrite map_map. apply list_sum_le.
    eapply Forall_impl; [exact IHd|]. intros [k x] Hx. simpl in *.
    apply le_n_S. rewrite length_app. simpl.
    specialize (Hx (S level)). lia.
Qed.

(** *** [json.loads] after [json.dumps] *)

Lemma decode_dumps (ext : bool) (indent : nat) (v : value) :
  well_formed v = true → ext = true ∨ finite v = true →
  decode_with ext (json_dumps indent v) = Some v.
Proof.
  intros Hwf Hext. unfold decode_with, json_dumps.
  pose proof (skip_ws_iterencode indent v 0 []) as Hws.
  rewrite app_nil_r in Hws. rewrite Hws.
  pose proof (well_formed_reads_back indent v Hwf ext
                (2 * length (iterencode indent v 0) + 2)%nat 0%nat [] Hext) as Hrb.
  rewrite app_nil_r in Hrb. rewrite Hrb; [done| |done].
  pose proof (size_le_length indent v 0). lia.
Qed.

Lemma loads_dumps (indent : nat) (v : value) :
  well_formed v = true → json_loads (json_dumps indent v) = Some v.
Proof. intros. apply decode_dumps; auto. Qed.

Lemma standard_loads_dumps (indent : nat) (v : value) :
  well_formed v = true → finite v = true →
  standard_json_loads (json_dumps indent v) = Some v.
Proof. intros. apply decode_dumps; auto. Qed.

End Loads.

(** ** The characters of the written text *)

Lemma is_digit_written (c : N) : is_digit c = true → is_written c = true.
Proof. unfold is_digit, is_written. intros. bools. by cmps. Qed.

Lemma digits_written (l : str) :
  forallb is_digit l = true → forallb is_written l = true.
Proof.
  induction l as [|c l IH]; [done|]. simpl. intros H. bools.
  by rewrite is_digit_written, IH.
Qed.

Lemma hex_digit_written (d : N) : d < 16 → is_written (hex_digit d) = true.
Proof. intros. unfold hex_digit, is_written. by cmps. Qed.

Lemma hex4_written (n : N) : forallb is_written (hex4 n) = true.
Proof.
  unfold hex4. cbn [forallb].
  rewrite !hex_digit_written by (apply N.mod_lt; lia). done.
Qed.

Lemma escape_char_written (c : N) : forallb is_written (escape_char c) = true.
Proof.
  assert (∀ n rest, forallb is_written rest = true →
                    forallb is_written (92 :: 117 :: hex4 n ++ rest) = true)
    as Hu.
  { intros n rest Hrest. cbn [forallb]. by rewrite forallb_app, hex4_written. }
  unfold escape_char.
  repeat (cmp; [done|]).
  destruct (N.leb_spec 32 c); cbn [andb].
  - destruct (N.leb_spec c 126).
    + unfold is_written. cbn [forallb]. by cmps.
    + cmp.
      * rewrite <- (app_nil_r (hex4 c)). by apply Hu.
      * apply Hu. rewrite <- (app_nil_r (hex4 _)). by apply Hu.
  - cmp. rewrite <- (app_nil_r (hex4 c)). by apply Hu.
Qed.

Lemma encode_string_written (s : str) :
  forallb is_written (encode_basestring_ascii s) = true.
Proof.
  unfold encode_basestring_ascii. cbn [forallb]. rewrite forallb_app.
  cbn [forallb]. rewrite andb_true_r. change (is_written ch_quote) with true.
  cbn [andb]. induction s as [|c s IH]; [done|].
  cbn [flat_map]. by rewrite forallb_app, escape_char_written, IH.
Qed.

Lemma span_digits_digits (s ds r : str) :
  span_digits s = (ds, r) → forallb is_digit ds = true.
Proof.
  revert ds r. induction s as [|c s IH]; intros ds r; simpl.
  - by intros [= <- <-].
  - destruct (is_digit c) eqn:Ec; [|by intros [= <- <-]].
    destruct (span_digits s) as [d r'] eqn:E. intros [= <- <-].
    simpl. by rewrite Ec, (IH d r').
Qed.

Lemma match_unsigned_written (sg s i r : str) :
  forallb is_written sg = true →
  match_unsigned sg s = Some (i, r) → forallb is_written i = true.
Proof.
  intros Hsg. destruct s as [|d r1]; [done|]. simpl.
  destruct (N.eqb_spec d 48) as [->|].
  { intros [= <- <-]. by rewrite forallb_app, Hsg. }
  destruct (is_digit d) eqn:Ed; [|done].
  destruct (span_digits r1) as [ds r2] eqn:E. intros [= <- <-].
  rewrite forallb_app, Hsg. simpl.
  by rewrite is_digit_written, (digits_written ds (span_digits_digits _ _ _ E)).
Qed.

Lemma match_integer_written (s i r : str) :
  match_integer s = Some (i, r) → forallb is_written i = true.
Proof.
  destruct s as [|c s]; [done|]. cbn [match_integer].
  destruct (N.eqb_spec c 45) as [->|]; by apply match_unsigned_written.
Qed.

Lemma match_frac_written (s r : str) (fr : option str) :
  match_frac s = (fr, r) → forallb is_written (opt_text fr) = true.
Proof.
  destruct s as [|c s]; simpl; [by intros [= <- <-]|].
  destruct (N.eqb_spec c 46) as [->|]; [|by intros [= <- <-]].
  destruct (span_digits s) as [ds r'] eqn:E.
  apply span_digits_digits, digits_written in E.
  destruct ds; intros [= <- <-]; [done|]. simpl in *. by rewrite E.
Qed.

Lemma match_exp_written (s r : str) (ex : option str) :
  match_exp s = (ex, r) → forallb is_written (opt_text ex) = true.
Proof.
  destruct s as [|e s]; simpl; [by intros [= <- <-]|].
  destruct ((e =? 101) || (e =? 69)) eqn:Ee; [|by intros [= <- <-]].
  assert (is_written e = true) as He.
  { apply orb_true_iff in Ee as [Ee|Ee]; bools; by subst. }
  destruct s as [|c s]; simpl; [by intros [= <- <-]|].
  destruct ((c =? 43) || (c =? 45)) eqn:Ec.
  - assert (is_written c = true) as Hc.
    { apply orb_true_iff in Ec as [Ec|Ec]; bools; by subst. }
    destruct (span_digits s) as [ds r'] eqn:E.
    apply span_digits_digits, digits_written in E.
    destruct ds; intros [= <- <-]; [done|]. simpl in *. by rewrite He, Hc, E.
  - destruct (span_digits (c :: s)) as [ds r'] eqn:E.
    apply span_digits_digits, digits_written in E.
    destruct ds; intros [= <- <-]; [done|]. simpl in *. by rewrite He, E.
Qed.

(** A text [NUMBER_RE] matches whole is made of digits, signs, a dot and an
    exponent mark. *)
Lemma number_written (s i : str) (fr ex : option str) :
  match_number s = Some (i, fr, ex, []) → forallb is_written s = true.
Proof.
  intros Hm. pose proof (match_number_consumed _ _ _ _ _ Hm) as Hs.
  unfold match_number in Hm.
  destruct (match_integer s) as [[i0 r0]|] eqn:Ei; [|done].
  destruct (match_frac r0) as [fr0 r1] eqn:Ef.
  destruct (match_exp r1) as [ex0 r2] eqn:Ee.
  injection Hm as <- <- <- ->.
  rewrite Hs, !forallb_app.
  by rewrite (match_integer_written _ _ _ Ei), (match_frac_written _ _ _ Ef),
    (match_exp_written _ _ _ Ee).
Qed.

Lemma join_items_written (sep : str) (items : list str) :
  forallb is_written sep = true →
  Forall (fun x => forallb is_written x = true) items →
  forallb is_written (join_items sep items) = true.
Proof.
  intros Hsep. induction 1 as [|x l Hx Hl IH]; [done|].
  destruct l as [|y l]; [done|].
  rewrite join_items_cons, !forallb_app. by rewrite Hx, Hsep, IH.
Qed.

Lemma newline_indent_written (indent level : nat) :
  forallb is_written (newline_indent indent level) = true.
Proof.
  unfold newline_indent. cbn [forallb]. change (is_written 10) with true.
  cbn [andb]. induction (indent * level)%nat as [|k IH]; [done|]. apply IH.
Qed.

Lemma encode_container_written (o c : N) (indent level : nat) (items : list str) :
  is_written o = true → is_written c = true →
  Forall (fun x => forallb is_written x = true) items →
  forallb is_written (encode_container o c indent level items) = true.
Proof.
  intros Ho Hc Hitems. unfold encode_container.
  destruct items as [|x l]; [simpl; by rewrite Ho, Hc|].
  cbn [forallb]. rewrite !forallb_app. cbn [forallb].
  rewrite Ho, Hc, !newline_indent_written.
  rewrite join_items_written; [done| |done].
  cbn [forallb]. by rewrite newline_indent_written.
Qed.

Section Written.
Context {FM : FloatModel}.

(** Whatever the document, the text written is printable ASCII and line
    feeds. *)
Lemma iterencode_written (indent : nat) (v : value) (level : nat) :
  forallb is_written (iterencode indent v level) = true.
Proof.
  revert level.
  induction v as [|b|z|f|s|l IHl|d IHd] using value_nested_ind; intros level.
  - done.
  - by destruct b.
  - cbn [iterencode]. apply (number_written _ _ _ _ (match_number_int_repr z)).
  - destruct f as [x| | |]; [|done..]. cbn [iterencode floatstr].
    pose proof (float_repr_literal x) as Hlit. unfold is_float_literal in Hlit.
    destruct (match_number (float_repr x)) as [[[[i fr] ex] r]|] eqn:E; [|done].
    destruct r; [|done]. by apply (number_written _ _ _ _ E).
  - apply encode_string_written.
  - cbn [iterencode]. apply encode_container_written; [done..|].
    apply Forall_map. eapply Forall_impl; [exact IHl|]. by intros x Hx.
  - cbn [iterencode]. apply encode_container_written; [done..|].
    apply Forall_map. eapply Forall_impl; [exact IHd|]. intros [k x] Hx.
    change (forallb is_written
              (encode_basestring_ascii k
                 ++ 58 :: 32 :: iterencode indent x (S level)) = true).
    rewrite forallb_app, encode_string_written. cbn [forallb andb].
    change (is_written 58) with true. change (is_written 32) with true.
    apply Hx.
Qed.

End Written.

(** ** Writing a text and reading it again *)

Lemma written_ascii (c : N) : is_written c = true → c < 128 ∧ c ≠ 13.
Proof.
  unfold is_written. intros H. apply orb_true_iff in H as [H|H]; bools; lia.
Qed.

Lemma utf8_encode_written (s : str) :
  forallb is_written s = true → utf8_encode s = Some s.
Proof.
  induction s as [|c s IH]; [done|]. simpl. intros H. bools.
  destruct (written_ascii c) as [Hc _]; [done|].
  unfold utf8_encode_char. destruct (N.ltb_spec c 128); [|lia].
  by rewrite IH.
Qed.

Lemma utf8_decode_written (s : str) :
  forallb is_written s = true → utf8_decode s = Some s.
Proof.
  induction s as [|c s IH]; [done|]. simpl. intros H. bools.
  destruct (written_ascii c) as [Hc _]; [done|].
  destruct (N.ltb_spec c 128); [|lia]. by rewrite IH.
Qed.

Lemma universal_newlines_written (s : str) :
  forallb is_written s = true → universal_newlines s = s.
Proof.
  induction s as [|c s IH]; [done|]. simpl. intros H. bools.
  destruct (written_ascii c) as [_ Hc]; [done|].
  destruct (N.eqb_spec c 13); [done|]. by rewrite IH.
Qed.

Lemma to_N_byte_of_N (c : N) : c < 256 → Byte.to_N (byte_of_N c) = c.
Proof.
  intros Hc. unfold byte_of_N. destruct (Byte.of_N c) as [b|] eqn:E.
  - by apply Byte.to_of_N.
  - apply Byte.of_N_None_iff in E. lia.
Qed.

Lemma bytes_of_written (s : str) :
  forallb is_written s = true → map Byte.to_N (map byte_of_N s) = s.
Proof.
  induction s as [|c s IH]; [done|]. simpl. intros H. bools.
  destruct (written_ascii c) as [Hc _]; [done|].
  rewrite IH by done. f_equal. apply to_N_byte_of_N. lia.
Qed.

(** A written text is encoded without error, and read back unchanged. *)
Lemma encode_text_written (s : str) :
  forallb is_written s = true →
  encode_text s = Some (map byte_of_N s)
  ∧ decode_text (map byte_of_N s) = Some s.
Proof.
  intros H. unfold encode_text, decode_text.
  rewrite utf8_encode_written, bytes_of_written, utf8_decode_written by done.
  simpl. by rewrite universal_newlines_written.
Qed.

(** The bytes written are ASCII. *)
Lemma bytes_written_ascii (s : str) :
  forallb is_written s = true →
  Forall (fun b => Byte.to_N b < 128) (map byte_of_N s).
Proof.
  induction s as [|c s IH]; [constructor|]. simpl. intros H. bools.
  destruct (written_ascii c) as [Hc _]; [done|].
  constructor; [|by apply IH]. rewrite to_N_byte_of_N; lia.
Qed.

(** ** What the scanner does on any text *)

(** [after r s]: [r] is what is left of [s] once a non-empty prefix has been
    read. *)
Definition after (r s : str) : Prop := ∃ p, s = p ++ r ∧ p ≠ [].

Lemma after_cons (c : N) (r : str) : after r (c :: r).
Proof. by exists [c]. Qed.

Lemma after_step (c : N) (r s : str) : after r s → after r (c :: s).
Proof. intros (p & -> & _). by exists (c :: p). Qed.

Lemma after_app (p r : str) : p ≠ [] → after r (p ++ r).
Proof. intros. by exists p. Qed.

Lemma after_trans (a b c : str) : after a b → after b c → after a c.
Proof.
  intros (p & -> & Hp) (q & -> & Hq). exists (q ++ p).
  split; [by rewrite app_assoc|]. by destruct q.
Qed.

Lemma after_suffix (a b c : str) : a `suffix_of` b → after b c → after a c.
Proof.
  intros [p ->] (q & -> & Hq). exists (q ++ p).
  split; [by rewrite app_assoc|]. by destruct q.
Qed.

Lemma suffix_after (a b c : str) : after a b → b `suffix_of` c → after a c.
Proof.
  intros (p & -> & Hp) [q ->]. exists (q ++ p).
  split; [by rewrite app_assoc|]. by destruct q, p.
Qed.

Lemma after_length (r s : str) : after r s → (length r < length s)%nat.
Proof.
  intros (p & -> & Hp). rewrite length_app. destruct p; [done|]. simpl. lia.
Qed.

Lemma after_forallb (f : N → bool) (r s : str) :
  after r s → forallb f s = true → forallb f r = true.
Proof. intros (p & -> & _). rewrite forallb_app. intros H. by bools. Qed.

Lemma skip_ws_suffix (s : str) : skip_ws s `suffix_of` s.
Proof.
  induction s as [|c s IH]; [done|]. simpl. destruct (is_ws c); [|done].
  by apply suffix_cons_r.
Qed.

Lemma skip_ws_length (s : str) : (length (skip_ws s) ≤ length s)%nat.
Proof. apply suffix_length, skip_ws_suffix. Qed.

Lemma skip_ws_forallb (f : N → bool) (s : str) :
  forallb f s = true → forallb f (skip_ws s) = true.
Proof.
  destruct (skip_ws_suffix s) as [p Hp]. rewrite Hp at 1.
  rewrite forallb_app. intros H. by bools.
Qed.

Lemma starts_with_app (p s r : str) : starts_with p s = Some r → s = p ++ r.
Proof.
  revert s. induction p as [|a p IH]; intros s; simpl.
  - by intros [= ->].
  - destruct s as [|b s]; [done|]. destruct (N.eqb_spec a b) as [->|]; [|done].
    intros H. by rewrite (IH _ H).
Qed.

Lemma match_unsigned_nonempty (sg s i r : str) :
  match_unsigned sg s = Some (i, r) → i ≠ [].
Proof.
  destruct s as [|d r1]; [done|]. simpl.
  destruct (d =? 48); [intros [= <- <-]; by destruct sg|].
  destruct (is_digit d); [|done].
  destruct (span_digits r1) as [ds r2]. intros [= <- <-]. by destruct sg.
Qed.

Lemma match_number_after (s i r : str) (fr ex : option str) :
  match_number s = Some (i, fr, ex, r) → after r s.
Proof.
  intros Hm. pose proof (match_number_consumed _ _ _ _ _ Hm) as Hs.
  exists (i ++ opt_text fr ++ opt_text ex). split.
  - by rewrite <- !app_assoc.
  - unfold match_number in Hm.
    destruct (match_integer s) as [[i0 r0]|] eqn:Ei; [|done].
    destruct (match_frac r0) as [fr0 r1] eqn:Ef.
    destruct (match_exp r1) as [ex0 r2] eqn:Ee.
    injection Hm as <- <- <- <-.
    assert (i0 ≠ []) as Hi.
    { destruct s as [|c t]; [done|]. cbn [match_integer] in Ei.
      destruct (c =? 45); by apply match_unsigned_nonempty in Ei. }
    by destruct i0.
Qed.

(** *** Strings *)

Lemma hex_value_bound (c v : N) : hex_value c = Some v → v < 16.
Proof.
  unfold hex_value, is_digit.
  destruct (N.leb_spec 48 c), (N.leb_spec c 57); simpl;
    try (intros [= <-]; lia);
    destruct (N.leb_spec 97 c), (N.leb_spec c 102); simpl;
    try (intros [= <-]; lia);
    destruct (N.leb_spec 65 c), (N.leb_spec c 70); simpl;
    try (intros [= <-]; lia); done.
Qed.

Lemma unhex4_bound (a b c d u : N) : unhex4 a b c d = Some u → u < 0x10000.
Proof.
  unfold unhex4.
  destruct (hex_value a) as [x3|] eqn:E3; [|done].
  destruct (hex_value b) as [x2|] eqn:E2; [|done].
  destruct (hex_value c) as [x1|] eqn:E1; [|done].
  destruct (hex_value d) as [x0|] eqn:E0; [|done].
  simpl. intros [= <-].
  apply hex_value_bound in E3, E2, E1, E0. lia.
Qed.

Lemma backslash_bound (e x : N) : backslash e = Some x → x < 128.
Proof.
  unfold backslash.
  repeat (destruct (_ =? _); [intros [= <-]; lia|]). done.
Qed.

Lemma prepend_Some (c : N) (o : option (str * str)) (t r : str) :
  prepend c o = Some (t, r) → ∃ t', t = c :: t' ∧ o = Some (t', r).
Proof. destruct o as [[t' r']|]; [|done]. intros [= <- <-]. by exists t'. Qed.

Lemma scalar_not_surrogate (c : N) :
  is_scalar c = true →
  is_codepoint c = true ∧ is_high c = false ∧ is_low c = false.
Proof.
  unfold is_scalar, is_surrogate, is_codepoint, is_high, is_low. intros H.
  bools. split; [by apply N.ltb_lt|].
  apply andb_false_iff in H0 as [H0|H0]; bools;
    split; apply andb_false_iff;
    (by left; apply N.leb_gt; lia) || (by right; apply N.leb_gt; lia).
Qed.

(** A string that reads back starting with a low surrogate opens with the
    escape of that surrogate. *)
Lemma scanstring_head_low (s : str) (c : N) (t r : str) :
  scanstring s = Some (c :: t, r) → forallb is_scalar s = true →
  is_low c = true →
  ∃ h1 h2 h3 h4 r2,
    s = 92 :: 117 :: h1 :: h2 :: h3 :: h4 :: r2 ∧ unhex4 h1 h2 h3 h4 = Some c.
Proof.
  intros Hscan Hs Hlow.
  destruct s as [|c0 r0]; [done|]. cbn [scanstring] in Hscan.
  cbn [forallb] in Hs. apply andb_true_iff in Hs as [Hc0 Hr0].
  destruct (N.eqb_spec c0 34); [done|].
  destruct (N.eqb_spec c0 92) as [->|].
  - destruct r0 as [|e r1]; [done|].
    destruct (N.eqb_spec e 117) as [->|].
    + destruct r1 as [|h1 [|h2 [|h3 [|h4 r2]]]]; try done.
      destruct (unhex4 h1 h2 h3 h4) as [uni|] eqn:Eu; [|done].
      assert (is_high uni = true → False) as Hnh.
      { intros Hh. rewrite Hh in Hscan.
        assert (∀ o, prepend uni o = Some (c :: t, r) → False) as Hlone.
        { intros o Ho. apply prepend_Some in Ho as (t' & [= -> ->] & _).
          unfold is_high, is_low in *. bools. lia. }
        destruct r2 as [|b [|u [|l1 [|l2 [|l3 [|l4 r3]]]]]];
          try by (eapply Hlone).
        destruct ((b =? 92) && (u =? 117)); [|by eapply Hlone].
        destruct (unhex4 l1 l2 l3 l4) as [uni2|]; [|done].
        destruct (is_low uni2) eqn:El2; [|by eapply Hlone].
        apply prepend_Some in Hscan as (t' & [= -> ->] & _).
        pose proof (join_surrogates_range uni uni2 Hh El2).
        unfold is_low in Hlow. bools. lia. }
      destruct (is_high uni); [by destruct Hnh|].
      apply prepend_Some in Hscan as (t' & [= -> ->] & _).
      by exists h1, h2, h3, h4, r2.
    + destruct (backslash e) as [x|] eqn:Eb; [|done].
      apply prepend_Some in Hscan as (t' & [= -> ->] & _).
      apply backslash_bound in Eb. unfold is_low in Hlow. bools. lia.
  - destruct (c0 <? 32); [done|].
    apply prepend_Some in Hscan as (t' & [= -> ->] & _).
    apply scalar_not_surrogate in Hc0 as (_ & _ & Hc0). congruence.
Qed.

(** One step of [scanstring]: the closing quote, or one code point and the
    rest of the string.  A high surrogate is never followed by a low one:
    the two would have been joined. *)
Lemma scanstring_step (s t r : str) :
  scanstring s = Some (t, r) → forallb is_scalar s = true →
  (t = [] ∧ after r s)
  ∨ (∃ x t' s',
       t = x :: t' ∧ scanstring s' = Some (t', r) ∧ after s' s
       ∧ is_codepoint x = true
       ∧ (is_high x = true → ∀ y t'', t' = y :: t'' → is_low y = false)).
Proof.
  intros Hscan Hs.
  destruct s as [|c0 r0]; [done|]. cbn [scanstring] in Hscan.
  cbn [forallb] in Hs. apply andb_true_iff in Hs as [Hc0 Hr0].
  destruct (N.eqb_spec c0 34).
  { injection Hscan as <- <-. left. split; [done|]. apply after_cons. }
  right.
  destruct (N.eqb_spec c0 92) as [->|].
  - destruct r0 as [|e r1]; [done|].
    destruct (N.eqb_spec e 117) as [->|].
    + destruct r1 as [|h1 [|h2 [|h3 [|h4 r2]]]]; try done.
      destruct (unhex4 h1 h2 h3 h4) as [uni|] eqn:Eu; [|done].
      pose proof (unhex4_bound _ _ _ _ _ Eu) as Hu.
      assert (after r2 (92 :: 117 :: h1 :: h2 :: h3 :: h4 :: r2)) as Hafter
        by (by exists [92; 117; h1; h2; h3; h4]).
      assert (forallb is_scalar r2 = true) as Hr2
        by (simpl in Hr0; by bools).
      assert (is_codepoint uni = true) as Hcp
        by (apply N.ltb_lt; lia).
      (* the code point stands alone *)
      assert (∀ o, prepend uni o = Some (t, r) → o = scanstring r2 →
                   (is_high uni = true →
                    ∀ y t'', scanstring r2 = Some (y :: t'', r) →
                             is_low y = false) →
                   ∃ x t' s',
                     t = x :: t' ∧ scanstring s' = Some (t', r)
                     ∧ after s' (92 :: 117 :: h1 :: h2 :: h3 :: h4 :: r2)
                     ∧ is_codepoint x = true
                     ∧ (is_high x = true →
                        ∀ y t'', t' = y :: t'' → is_low y = false)) as Hlone.
      { intros o Ho -> Hnext.
        apply prepend_Some in Ho as (t' & -> & Ht').
        exists uni, t', r2. repeat split; try done.
        intros Hh y t'' ->. by apply (Hnext Hh y t''). }
      (* what follows is not the escape of a low surrogate *)
      assert (∀ y t'', scanstring r2 = Some (y :: t'', r) → is_low y = true →
                       ∃ l1 l2 l3 l4 r3,
                         r2 = 92 :: 117 :: l1 :: l2 :: l3 :: l4 :: r3
                         ∧ unhex4 l1 l2 l3 l4 = Some y) as Hlow.
      { intros y t'' Hy Hly. by apply (scanstring_head_low r2 y t'' r). }
      destruct (is_high uni) eqn:Hh; [|by apply (Hlone _ Hscan)].
      destruct r2 as [|b [|u [|l1 [|l2 [|l3 [|l4 r3]]]]]];
        try (apply (Hlone _ Hscan eq_refl); intros _ y t'' Hy;
             destruct (is_low y) eqn:Ely; [|done];
             by destruct (Hlow y t'' Hy Ely) as (? & ? & ? & ? & ? & ? & ?)).
      destruct ((b =? 92) && (u =? 117)) eqn:Ebu.
      * destruct (unhex4 l1 l2 l3 l4) as [uni2|] eqn:Eu2; [|done].
        destruct (is_low uni2) eqn:El2.
        -- apply prepend_Some in Hscan as (t' & -> & Ht').
           exists (join_surrogates uni uni2), t', r3. repeat split; try done.
           ++ by exists [92; 117; h1; h2; h3; h4; b; u; l1; l2; l3; l4].
           ++ pose proof (join_surrogates_range uni uni2 Hh El2).
              apply N.ltb_lt. lia.
           ++ intros Hj. pose proof (join_surrogates_range uni uni2 Hh El2).
              unfold is_high in Hj. bools. lia.
        -- apply (Hlone _ Hscan eq_refl). intros _ y t'' Hy.
           destruct (is_low y) eqn:Ely; [|done].
           destruct (Hlow y t'' Hy Ely) as (? & ? & ? & ? & ? & Heq & E).
           simplify_eq. congruence.
      * apply (Hlone _ Hscan eq_refl). intros _ y t'' Hy.
        destruct (is_low y) eqn:Ely; [|done].
        destruct (Hlow y t'' Hy Ely) as (? & ? & ? & ? & ? & Heq & E).
        by simplify_eq.
    + destruct (backslash e) as [x|] eqn:Eb; [|done].
      apply prepend_Some in Hscan as (t' & -> & Ht').
      apply backslash_bound in Eb.
      exists x, t', r1. repeat split; try done.
      * by exists [92; e].
      * apply N.ltb_lt. lia.
      * intros Hh. unfold is_high in Hh. bools. lia.
  - destruct (c0 <? 32); [done|].
    apply prepend_Some in Hscan as (t' & -> & Ht').
    apply scalar_not_surrogate in Hc0 as (Hcp & Hnh & _).
    exists c0, t', r0. repeat split; try done.
    + apply after_cons.
    + congruence.
Qed.

(** What [scanstring] returns is a text, and it has read something. *)
Lemma scanstring_text (s t r : str) :
  scanstring s = Some (t, r) → forallb is_scalar s = true →
  is_text t = true ∧ after r s.
Proof.
  remember (length s) as n eqn:Hn. revert s t r Hn.
  induction (lt_wf n) as [n _ IH]. intros s t r -> Hscan Hs.
  destruct (scanstring_step s t r Hscan Hs)
    as [[-> Hafter]|(x & t' & s' & -> & Hscan' & Hafter & Hx & Hpair)];
    [done|].
  destruct (IH (length s') (after_length _ _ Hafter) s' t' r eq_refl Hscan'
              (after_forallb _ _ _ Hafter Hs)) as [Ht' Hafter'].
  split; [|by apply (after_trans _ s')].
  unfold is_text in *. bools. apply andb_true_iff. split.
  - by apply is_str_cons.
  - destruct t' as [|y t'']; [done|]. rewrite no_pair_cons2.
    apply andb_true_iff. split; [|done].
    apply negb_true_iff, andb_false_iff.
    destruct (is_high x) eqn:Hh; [right|by left].
    by apply (Hpair eq_refl y t'').
Qed.

Section Scanner.
Context {FM : FloatModel}.

(** *** Documents *)

Lemma scan_once_S (ext : bool) (n : nat) (s : str) :
  scan_once ext (S n) s =
  match s with
  | [] => Malformed
  | c :: r =>
      if c =? 34 then
        match scanstring r with
        | Some (t, rest) => Parsed (VStr t) rest
        | None => Malformed
        end
      else if c =? 123 then
        match skip_ws r with
        | c1 :: r1 =>
            if c1 =? 125 then Parsed (VDict []) r1
            else if c1 =? 34 then
              match members ext n r1 with
              | Parsed pairs rest => Parsed (VDict (dict_of_pairs pairs)) rest
              | Malformed => Malformed
              | Starved => Starved
              end
            else Malformed
        | [] => Malformed
        end
      else if c =? 91 then
        match skip_ws r with
        | c1 :: r1 =>
            if c1 =? 93 then Parsed (VList []) r1
            else
              match elements ext n (c1 :: r1) with
              | Parsed l rest => Parsed (VList l) rest
              | Malformed => Malformed
              | Starved => Starved
              end
        | [] => Malformed
        end
      else
        match starts_with (lit "null") s with
        | Some rest => Parsed VNone rest
        | None =>
        match starts_with (lit "true") s with
        | Some rest => Parsed (VBool true) rest
        | None =>
        match starts_with (lit "false") s with
        | Some rest => Parsed (VBool false) rest
        | None =>
        match match_number s with
        | Some (i, None, None, rest) => Parsed (VInt (int_of_text i)) rest
        | Some (i, fr, ex, rest) =>
            Parsed (VFloat (float_of_text (i ++ opt_text fr ++ opt_text ex))) rest
        | None =>
            if ext then
              match starts_with (lit "NaN") s with
              | Some rest => Parsed (VFloat NaN) rest
              | None =>
              match starts_with (lit "Infinity") s with
              | Some rest => Parsed (VFloat PosInf) rest
              | None =>
              match starts_with (lit "-Infinity") s with
              | Some rest => Parsed (VFloat NegInf) rest
              | None => Malformed
              end end end
            else Malformed
        end end end end
  end.
Proof. done. Qed.

(** A scalar, neither string nor container: it is well formed whatever it
    is, and something was read. *)
Lemma scan_atom (ext : bool) (s : str) (v : value) (r : str) :
  match starts_with (lit "null") s with
  | Some rest => Parsed VNone rest
  | None =>
  match starts_with (lit "true") s with
  | Some rest => Parsed (VBool true) rest
  | None =>
  match starts_with (lit "false") s with
  | Some rest => Parsed (VBool false) rest
  | None =>
  match match_number s with
  | Some (i, None, None, rest) => Parsed (VInt (int_of_text i)) rest
  | Some (i, fr, ex, rest) =>
      Parsed (VFloat (float_of_text (i ++ opt_text fr ++ opt_text ex))) rest
  | None =>
      if ext then
        match starts_with (lit "NaN") s with
        | Some rest => Parsed (VFloat NaN) rest
        | None =>
        match starts_with (lit "Infinity") s with
        | Some rest => Parsed (VFloat PosInf) rest
        | None =>
        match starts_with (lit "-Infinity") s with
        | Some rest => Parsed (VFloat NegInf) rest
        | None => Malformed
        end end end
      else Malformed
  end end end end = Parsed v r →
  well_formed v = true ∧ after r s.
Proof.
  assert (∀ p rest, starts_with p s = Some rest → p ≠ [] → after rest s)
    as Hlit.
  { intros p rest Hp Hne. apply starts_with_app in Hp as ->.
    by apply after_app. }
  destruct (starts_with (lit "null") s) eqn:E1.
  { intros [= <- <-]. split; [done|]. by eapply Hlit. }
  destruct (starts_with (lit "true") s) eqn:E2.
  { intros [= <- <-]. split; [done|]. by eapply Hlit. }
  destruct (starts_with (lit "false") s) eqn:E3.
  { intros [= <- <-]. split; [done|]. by eapply Hlit. }
  destruct (match_number s) as [[[[i fr] ex] rest]|] eqn:Em.
  { apply match_number_after in Em.
    destruct fr, ex; intros [= <- <-]; by split. }
  destruct ext; [|done].
  destruct (starts_with (lit "NaN") s) eqn:E4.
  { intros [= <- <-]. split; [done|]. by eapply Hlit. }
  destruct (starts_with (lit "Infinity") s) eqn:E5.
  { intros [= <- <-]. split; [done|]. by eapply Hlit. }
  destruct (starts_with (lit "-Infinity") s) eqn:E6; [|done].
  intros [= <- <-]. split; [done|]. by eapply Hlit.
Qed.

Lemma dict_set_entries (P : str * value → bool) (d : dict) (k : str) (v : value) :
  (∀ k' v', P (k', v') = true → P (k', v) = true ∨ k' ≠ k) →
  forallb P d = true → P (k, v) = true → forallb P (dict_set d k v) = true.
Proof.
  intros HP. induction d as [|[k' v'] d IH]; simpl.
  - intros _ ->. done.
  - intros H Hkv. bools.
    destruct (decide (k' = k)) as [->|]; simpl.
    + by rewrite Hkv.
    + by rewrite H, IH.
Qed.

Lemma dict_of_pairs_well_formed (pairs : list (str * value)) :
  forallb (fun kv => match kv with (k, x) => is_text k && well_formed x end)
    pairs = true →
  well_formed (VDict (dict_of_pairs pairs)) = true.
Proof.
  unfold dict_of_pairs.
  assert (∀ acc,
            well_formed (VDict acc) = true →
            forallb (fun kv => match kv with
                               | (k, x) => is_text k && well_formed x
                               end) pairs = true →
            well_formed
              (VDict (fold_left (fun d kv => dict_set d kv.1 kv.2) pairs acc))
            = true) as Hgen; [|by apply Hgen].
  induction pairs as [|[k v] pairs IH]; intros acc Hacc Hpairs; [done|].
  simpl in Hpairs. apply andb_true_iff in Hpairs as [Hkv Hpairs].
  simpl. apply IH; [|done].
  cbn [well_formed] in Hacc |- *. apply andb_true_iff in Hacc as [Hnd Hent].
  apply andb_true_iff. split.
  - apply bool_decide_eq_true. apply bool_decide_eq_true in Hnd.
    by apply dict_set_keys_NoDup.
  - apply dict_set_entries; [|done..].
    intros k' v' _. destruct (decide (k' = k)) as [->|]; [by left|by right].
Qed.

Lemma scan_well_formed (ext : bool) (fuel : nat) :
  (∀ s v r, scan_once ext fuel s = Parsed v r → forallb is_scalar s = true →
            well_formed v = true ∧ after r s)
  ∧ (∀ s l r, elements ext fuel s = Parsed l r → forallb is_scalar s = true →
              forallb well_formed l = true ∧ after r s)
  ∧ (∀ s l r, members ext fuel s = Parsed l r → forallb is_scalar s = true →
              forallb (fun kv => match kv with
                                 | (k, x) => is_text k && well_formed x
                                 end) l = true
              ∧ after r s).
Proof.
  induction fuel as [|n (IHv & IHe & IHm)]; [done|].
  split; [|split].
  - intros s v r. rewrite scan_once_S.
    destruct s as [|c r0]; [done|]. intros Hscan Hs.
    assert (forallb is_scalar r0 = true) as Hr0 by (simpl in Hs; by bools).
    destruct (c =? 34).
    { destruct (scanstring r0) as [[t rest]|] eqn:Et; [|done].
      injection Hscan as <- <-.
      destruct (scanstring_text _ _ _ Et Hr0) as [Ht Ha].
      split; [done|]. by apply after_step. }
    destruct (c =? 123).
    { pose proof (skip_ws_suffix r0) as Hsuf.
      pose proof (skip_ws_forallb is_scalar r0 Hr0) as Hsc.
      destruct (skip_ws r0) as [|c1 r1]; [done|].
      assert (after r1 (c :: r0)) as Ha1.
      { apply after_step. eapply suffix_after; [apply after_cons|exact Hsuf]. }
      destruct (c1 =? 125); [injection Hscan as <- <-; by split|].
      destruct (c1 =? 34); [|done].
      destruct (members ext n r1) as [pairs rest| |] eqn:Em; [|done..].
      injection Hscan as <- <-.
      destruct (IHm _ _ _ Em) as [Hp Ha].
      { simpl in Hsc. by bools. }
      split; [by apply dict_of_pairs_well_formed|].
      by apply (after_trans _ r1). }
    destruct (c =? 91).
    { pose proof (skip_ws_suffix r0) as Hsuf.
      pose proof (skip_ws_forallb is_scalar r0 Hr0) as Hsc.
      destruct (skip_ws r0) as [|c1 r1]; [done|].
      destruct (c1 =? 93).
      { injection Hscan as <- <-. split; [done|].
        apply after_step. eapply suffix_after; [apply after_cons|exact Hsuf]. }
      destruct (elements ext n (c1 :: r1)) as [l rest| |] eqn:Ee; [|done..].
      injection Hscan as <- <-.
      destruct (IHe _ _ _ Ee Hsc) as [Hl Ha].
      split; [done|]. apply after_step. by eapply suffix_after. }
    by apply (scan_atom ext (c :: r0)).
  - intros s l r. rewrite elements_S. intros Hscan Hs.
    destruct (scan_once ext n s) as [v r1| |] eqn:Ev; [|done..].
    destruct (IHv _ _ _ Ev Hs) as [Hv Ha1].
    pose proof (skip_ws_suffix r1) as Hsuf.
    pose proof (after_forallb _ _ _ Ha1 Hs) as Hr1.
    pose proof (skip_ws_forallb is_scalar r1 Hr1) as Hsc.
    destruct (skip_ws r1) as [|c r2]; [done|].
    assert (after r2 s) as Ha2.
    { eapply after_trans; [|exact Ha1].
      eapply suffix_after; [apply after_cons|exact Hsuf]. }
    destruct (c =? 93).
    { injection Hscan as <- <-. simpl. by rewrite Hv. }
    destruct (c =? 44); [|done].
    destruct (elements ext n (skip_ws r2)) as [l' rest| |] eqn:Ee; [|done..].
    injection Hscan as <- <-.
    destruct (IHe _ _ _ Ee) as [Hl Ha].
    { apply skip_ws_forallb. simpl in Hsc. by bools. }
    split; [simpl; by rewrite Hv|].
    eapply after_trans; [|exact Ha2].
    eapply suffix_after; [exact Ha|apply skip_ws_suffix].
  - intros s l r. rewrite members_S. intros Hscan Hs.
    destruct (scanstring s) as [[key r1]|] eqn:Ek; [|done].
    destruct (scanstring_text _ _ _ Ek Hs) as [Hkey Ha1].
    pose proof (after_forallb _ _ _ Ha1 Hs) as Hr1.
    pose proof (skip_ws_suffix r1) as Hsuf1.
    pose proof (skip_ws_forallb is_scalar r1 Hr1) as Hsc1.
    destruct (skip_ws r1) as [|c r2]; [done|].
    destruct (c =? 58); [|done].
    assert (after r2 s) as Ha2.
    { eapply after_trans; [|exact Ha1].
      eapply suffix_after; [apply after_cons|exact Hsuf1]. }
    assert (forallb is_scalar r2 = true) as Hr2 by (simpl in Hsc1; by bools).
    destruct (scan_once ext n (skip_ws r2)) as [v r3| |] eqn:Ev; [|done..].
    destruct (IHv _ _ _ Ev (skip_ws_forallb _ _ Hr2)) as [Hv Ha3].
    assert (after r3 s) as Ha3'.
    { eapply after_trans; [|exact Ha2].
      eapply suffix_after; [exact Ha3|apply skip_ws_suffix]. }
    pose proof (after_forallb _ _ _ Ha3' Hs) as Hr3.
    pose proof (skip_ws_suffix r3) as Hsuf3.
    pose proof (skip_ws_forallb is_scalar r3 Hr3) as Hsc3.
    destruct (skip_ws r3) as [|c2 r4]; [done|].
    assert (after r4 s) as Ha4.
    { eapply after_trans; [|exact Ha3'].
      eapply suffix_after; [apply after_cons|exact Hsuf3]. }
    assert (forallb is_scalar r4 = true) as Hr4 by (simpl in Hsc3; by bools).
    destruct (c2 =? 125).
    { injection Hscan as <- <-. simpl. by rewrite Hkey, Hv. }
    destruct (c2 =? 44); [|done].
    pose proof (skip_ws_suffix r4) as Hsuf4.
    pose proof (skip_ws_forallb is_scalar r4 Hr4) as Hsc4.
    destruct (skip_ws r4) as [|q r5]; [done|].
    destruct (q =? 34); [|done].
    destruct (members ext n r5) as [l' rest| |] eqn:Em; [|done..].
    injection Hscan as <- <-.
    destruct (IHm _ _ _ Em) as [Hl Ha].
    { simpl in Hsc4. by bools. }
    split; [simpl; by rewrite Hkey, Hv|].
    eapply after_trans; [exact Ha|].
    eapply after_trans; [|exact Ha4].
    eapply suffix_after; [apply after_cons|exact Hsuf4].
Qed.

End Scanner.

(** *** The scanner always has fuel enough *)

(** Whatever the text, [scanstring] reads at least the closing quote. *)
Lemma scanstring_after (s t r : str) : scanstring s = Some (t, r) → after r s.
Proof.
  remember (length s) as n eqn:Hn. revert s t r Hn.
  induction (lt_wf n) as [n _ IH]. intros s t r -> Hscan.
  assert (∀ x s' p, s = p ++ s' → p ≠ [] →
                    prepend x (scanstring s') = Some (t, r) → after r s)
    as Hrec.
  { intros x s' p -> Hp Hpre.
    apply prepend_Some in Hpre as (t' & _ & Ht').
    apply (after_trans _ s'); [|by exists p].
    apply (IH (length s')) with (s := s') (t := t'); [|done..].
    rewrite length_app. destruct p; [done|]. simpl. lia. }
  destruct s as [|c0 r0]; [done|]. cbn [scanstring] in Hscan.
  destruct (c0 =? 34); [injection Hscan as <- <-; apply after_cons|].
  destruct (c0 =? 92).
  - destruct r0 as [|e r1]; [done|].
    destruct (e =? 117).
    + destruct r1 as [|h1 [|h2 [|h3 [|h4 r2]]]]; try done.
      destruct (unhex4 h1 h2 h3 h4) as [uni|]; [|done].
      assert (prepend uni (scanstring r2) = Some (t, r) →
              after r (c0 :: e :: h1 :: h2 :: h3 :: h4 :: r2)) as Hlone
        by (by apply (Hrec uni r2 [c0; e; h1; h2; h3; h4])).
      destruct (is_high uni); [|by apply Hlone].
      destruct r2 as [|b [|u [|l1 [|l2 [|l3 [|l4 r3]]]]]]; try by apply Hlone.
      destruct ((b =? 92) && (u =? 117)); [|by apply Hlone].
      destruct (unhex4 l1 l2 l3 l4) as [uni2|]; [|done].
      destruct (is_low uni2); [|by apply Hlone].
      by apply (Hrec (join_surrogates uni uni2) r3
                  [c0; e; h1; h2; h3; h4; b; u; l1; l2; l3; l4]).
    + destruct (backslash e) as [x|]; [|done].
      by apply (Hrec x r1 [c0; e]).
  - destruct (c0 <? 32); [done|]. by apply (Hrec c0 r0 [c0]).
Qed.

Section Fuel.
Context {FM : FloatModel}.

(** Every scanner call that returns has read something. *)
Lemma scan_after (ext : bool) (fuel : nat) :
  (∀ s v r, scan_once ext fuel s = Parsed v r → after r s)
  ∧ (∀ s l r, elements ext fuel s = Parsed l r → after r s)
  ∧ (∀ s l r, members ext fuel s = Parsed l r → after r s).
Proof.
  induction fuel as [|n (IHv & IHe & IHm)]; [done|].
  split; [|split].
  - intros s v r. rewrite scan_once_S.
    destruct s as [|c r0]; [done|]. intros Hscan.
    destruct (c =? 34).
    { destruct (scanstring r0) as [[t rest]|] eqn:Et; [|done].
      injection Hscan as <- <-. by apply after_step, (scanstring_after _ t). }
    destruct (c =? 123).
    { pose proof (skip_ws_suffix r0) as Hsuf.
      destruct (skip_ws r0) as [|c1 r1]; [done|].
      assert (after r1 (c :: r0)) as Ha1.
      { apply after_step. eapply suffix_after; [apply after_cons|exact Hsuf]. }
      destruct (c1 =? 125); [by injection Hscan as <- <-|].
      destruct (c1 =? 34); [|done].
      destruct (members ext n r1) as [pairs rest| |] eqn:Em; [|done..].
      injection Hscan as <- <-.
      apply (after_trans _ r1); [by eapply IHm|done]. }
    destruct (c =? 91).
    { pose proof (skip_ws_suffix r0) as Hsuf.
      destruct (skip_ws r0) as [|c1 r1]; [done|].
      destruct (c1 =? 93).
      { injection Hscan as <- <-.
        apply after_step. eapply suffix_after; [apply after_cons|exact Hsuf]. }
      destruct (elements ext n (c1 :: r1)) as [l rest| |] eqn:Ee; [|done..].
      injection Hscan as <- <-.
      apply after_step. eapply suffix_after; [by eapply IHe|done]. }
    by apply (scan_atom ext (c :: r0)) in Hscan as [_ ?].
  - intros s l r. rewrite elements_S. intros Hscan.
    destruct (scan_once ext n s) as [v r1| |] eqn:Ev; [|done..].
    pose proof (IHv _ _ _ Ev) as Ha1.
    pose proof (skip_ws_suffix r1) as Hsuf.
    destruct (skip_ws r1) as [|c r2]; [done|].
    assert (after r2 s) as Ha2.
    { eapply after_trans; [|exact Ha1].
      eapply suffix_after; [apply after_cons|exact Hsuf]. }
    destruct (c =? 93); [by injection Hscan as <- <-|].
    destruct (c =? 44); [|done].
    destruct (elements ext n (skip_ws r2)) as [l' rest| |] eqn:Ee; [|done..].
    injection Hscan as <- <-.
    eapply after_trans; [|exact Ha2].
    eapply suffix_after; [by eapply IHe|apply skip_ws_suffix].
  - intros s l r. rewrite members_S. intros Hscan.
    destruct (scanstring s) as [[key r1]|] eqn:Ek; [|done].
    pose proof (scanstring_after _ _ _ Ek) as Ha1.
    pose proof (skip_ws_suffix r1) as Hsuf1.
    destruct (skip_ws r1) as [|c r2]; [done|].
    destruct (c =? 58); [|done].
    assert (after r2 s) as Ha2.
    { eapply after_trans; [|exact Ha1].
      eapply suffix_after; [apply after_cons|exact Hsuf1]. }
    destruct (scan_once ext n (skip_ws r2)) as [v r3| |] eqn:Ev; [|done..].
    assert (after r3 s) as Ha3.
    { eapply after_trans; [|exact Ha2].
      eapply suffix_after; [by eapply IHv|apply skip_ws_suffix]. }
    pose proof (skip_ws_suffix r3) as Hsuf3.
    destruct (skip_ws r3) as [|c2 r4]; [done|].
    assert (after r4 s) as Ha4.
    { eapply after_trans; [|exact Ha3].
      eapply suffix_after; [apply after_cons|exact Hsuf3]. }
    destruct (c2 =? 125); [by injection Hscan as <- <-|].
    destruct (c2 =? 44); [|done].
    pose proof (skip_ws_suffix r4) as Hsuf4.
    destruct (skip_ws r4) as [|q r5]; [done|].
    destruct (q =? 34); [|done].
    destruct (members ext n r5) as [l' rest| |] eqn:Em; [|done..].
    injection Hscan as <- <-.
    eapply after_trans; [by eapply IHm|].
    eapply after_trans; [|exact Ha4].
    eapply suffix_after; [apply after_cons|exact Hsuf4].
Qed.

(** Twice the length of the text, and one call more, is fuel enough. *)
Lemma scan_not_starved (ext : bool) (fuel : nat) :
  (∀ s, (2 * length s < fuel)%nat → scan_once ext fuel s ≠ Starved)
  ∧ (∀ s, (2 * length s + 1 < fuel)%nat → elements ext fuel s ≠ Starved)
  ∧ (∀ s, (2 * length s + 1 < fuel)%nat → members ext fuel s ≠ Starved).
Proof.
  induction fuel as [|n (IHv & IHe & IHm)]; [repeat split; intros; lia|].
  destruct (scan_after ext n) as (Av & Ae & Am).
  split; [|split].
  - intros s Hlen. rewrite scan_once_S.
    destruct s as [|c r0]; [done|]. simpl in Hlen.
    destruct (c =? 34); [by destruct (scanstring r0) as [[? ?]|]|].
    pose proof (skip_ws_length r0) as Hws.
    destruct (c =? 123).
    { destruct (skip_ws r0) as [|c1 r1]; [done|]. simpl in Hws.
      destruct (c1 =? 125); [done|]. destruct (c1 =? 34); [|done].
      specialize (IHm r1 ltac:(lia)). by destruct (members ext n r1). }
    destruct (c =? 91).
    { destruct (skip_ws r0) as [|c1 r1]; [done|]. simpl in Hws.
      destruct (c1 =? 93); [done|].
      specialize (IHe (c1 :: r1) ltac:(simpl; lia)).
      by destruct (elements ext n (c1 :: r1)). }
    destruct (starts_with (lit "null") (c :: r0)); [done|].
    destruct (starts_with (lit "true") (c :: r0)); [done|].
    destruct (starts_with (lit "false") (c :: r0)); [done|].
    destruct (match_number (c :: r0)) as [[[[i [fr|]] [ex|]] rest]|]; try done.
    destruct ext; [|done].
    destruct (starts_with (lit "NaN") (c :: r0)); [done|].
    destruct (starts_with (lit "Infinity") (c :: r0)); [done|].
    by destruct (starts_with (lit "-Infinity") (c :: r0)).
  - intros s Hlen. rewrite elements_S.
    specialize (IHv s ltac:(lia)).
    destruct (scan_once ext n s) as [v r1| |] eqn:Ev; [|done..].
    apply Av, after_length in Ev.
    pose proof (skip_ws_length r1) as Hws.
    destruct (skip_ws r1) as [|c r2]; [done|]. simpl in Hws.
    destruct (c =? 93); [done|]. destruct (c =? 44); [|done].
    pose proof (skip_ws_length r2) as Hws2.
    specialize (IHe (skip_ws r2) ltac:(lia)).
    by destruct (elements ext n (skip_ws r2)).
  - intros s Hlen. rewrite members_S.
    destruct (scanstring s) as [[key r1]|] eqn:Ek; [|done].
    apply scanstring_after, after_length in Ek.
    pose proof (skip_ws_length r1) as Hws1.
    destruct (skip_ws r1) as [|c r2]; [done|]. simpl in Hws1.
    destruct (c =? 58); [|done].
    pose proof (skip_ws_length r2) as Hws2.
    specialize (IHv (skip_ws r2) ltac:(lia)).
    destruct (scan_once ext n (skip_ws r2)) as [v r3| |] eqn:Ev; [|done..].
    apply Av, after_length in Ev.
    pose proof (skip_ws_length r3) as Hws3.
    destruct (skip_ws r3) as [|c2 r4]; [done|]. simpl in Hws3.
    destruct (c2 =? 125); [done|]. destruct (c2 =? 44); [|done].
    pose proof (skip_ws_length r4) as Hws4.
    destruct (skip_ws r4) as [|q r5]; [done|]. simpl in Hws4.
    destruct (q =? 34); [|done].
    specialize (IHm r5 ltac:(lia)). by destruct (members ext n r5).
Qed.

(** [json.loads] never stops for want of fuel: [None] is a
    [JSONDecodeError]. *)
Lemma decode_not_starved (ext : bool) (s : str) :
  scan_once ext (2 * length s + 2) (skip_ws s) ≠ Starved.
Proof.
  apply scan_not_starved. pose proof (skip_ws_length s). lia.
Qed.

(** What [json.loads] returns for the text of a file is well formed. *)
Lemma decode_well_formed (ext : bool) (s : str) (v : value) :
  forallb is_scalar s = true → decode_with ext s = Some v →
  well_formed v = true.
Proof.
  intros Hs. unfold decode_with.
  destruct (scan_once ext (2 * length s + 2) (skip_ws s)) as [v' r| |] eqn:E;
    [|done..].
  destruct (skip_ws r); [|done]. intros [= <-].
  by apply (scan_well_formed ext _) in E as [? _]; [|apply skip_ws_forallb].
Qed.

End Fuel.

(** ** The text of a file *)

Lemma fmap_cons_Some (c : N) (o : option str) (s : str) :
  cons c <$> o = Some s → ∃ s', s = c :: s' ∧ o = Some s'.
Proof. destruct o as [s'|]; [|done]. intros [= <-]. by exists s'. Qed.

(** Decoding UTF-8 gives Unicode scalar values only. *)
Lemma utf8_decode_scalar (bs : list N) (s : str) :
  utf8_decode bs = Some s → forallb is_scalar s = true.
Proof.
  remember (length bs) as n eqn:Hn. revert bs s Hn.
  induction (lt_wf n) as [n _ IH]. intros bs s -> Hdec.
  assert (∀ c bs' p, bs = p ++ bs' → p ≠ [] → is_scalar c = true →
                     cons c <$> utf8_decode bs' = Some s →
                     forallb is_scalar s = true) as Hrec.
  { intros c bs' p -> Hp Hc Hs.
    apply fmap_cons_Some in Hs as (s' & -> & Hs').
    simpl. rewrite Hc. simpl.
    apply (IH (length bs')) with (bs := bs'); [|done..].
    rewrite length_app. destruct p; [done|]. simpl. lia. }
  destruct bs as [|b0 r0]; [by injection Hdec as <-|].
  cbn [utf8_decode] in Hdec.
  destruct (N.ltb_spec b0 128).
  { refine (Hrec _ r0 [b0] eq_refl _ _ Hdec); [done|].
    unfold is_scalar, is_codepoint, is_surrogate. by cmps. }
  destruct (N.ltb_spec b0 194); [done|].
  destruct (N.ltb_spec b0 224).
  { destruct r0 as [|b1 r1]; [done|].
    destruct (is_cont b1) eqn:E1; [|done].
    refine (Hrec _ r1 [b0; b1] eq_refl _ _ Hdec); [done|].
    unfold is_cont in E1. bools.
    unfold is_scalar, is_codepoint, is_surrogate. by cmps. }
  destruct (N.ltb_spec b0 240).
  { destruct r0 as [|b1 [|b2 r2]]; try done.
    destruct (is_cont b1 && is_cont b2 &&
              (2048 <=? (b0 - 224) * 4096 + (b1 - 128) * 64 + (b2 - 128)) &&
              negb (is_surrogate
                      ((b0 - 224) * 4096 + (b1 - 128) * 64 + (b2 - 128))))
      eqn:E; [|done].
    refine (Hrec _ r2 [b0; b1; b2] eq_refl _ _ Hdec); [done|].
    apply andb_true_iff in E as [E Es].
    unfold is_cont in E. bools.
    unfold is_scalar. rewrite Es, andb_true_r.
    unfold is_codepoint. apply N.ltb_lt. lia. }
  destruct (N.ltb_spec b0 245); [|done].
  destruct r0 as [|b1 [|b2 [|b3 r3]]]; try done.
  match type of Hdec with
  | (if ?c then _ else _) = _ => destruct c eqn:E; [|done]
  end.
  refine (Hrec _ r3 [b0; b1; b2; b3] eq_refl _ _ Hdec); [done|].
  bools. unfold is_scalar, is_codepoint, is_surrogate. by cmps.
Qed.

Lemma universal_newlines_scalar (s : str) :
  forallb is_scalar s = true → forallb is_scalar (universal_newlines s) = true.
Proof.
  remember (length s) as n eqn:Hn. revert s Hn.
  induction (lt_wf n) as [n _ IH]. intros s -> Hs.
  destruct s as [|c r]; [done|]. cbn [universal_newlines].
  simpl in Hs. apply andb_true_iff in Hs as [Hc Hr].
  destruct (c =? 13).
  - cbn [forallb]. change (is_scalar 10) with true. cbn [andb].
    destruct r as [|c' r']; [done|].
    simpl in Hr. apply andb_true_iff in Hr as [Hc' Hr'].
    destruct (c' =? 10).
    + apply (IH (length r')); [simpl; lia|done..].
    + apply (IH (length (c' :: r'))); [simpl; lia|done|].
      simpl. by rewrite Hc', Hr'.
  - cbn [forallb]. rewrite Hc. simpl.
    apply (IH (length r)); [simpl; lia|done..].
Qed.

(** What [f.read()] returns is made of scalar values. *)
Lemma decode_text_scalar (bs : list byte) (s : str) :
  decode_text bs = Some s → forallb is_scalar s = true.
Proof.
  unfold decode_text.
  destruct (utf8_decode (map Byte.to_N bs)) as [s'|] eqn:E; [|done].
  intros [= <-]. by apply universal_newlines_scalar, (utf8_decode_scalar _ _ E).
Qed.

(** ** The script, run *)

Section Run.
Context {FM : FloatModel}.

(** [json.dump] on a file that can be opened for writing: the file holds the
    text, encoded. *)
Lemma json_dump_run (o : value) (p : path) (indent : nat) (w : world) (f : file) :
  files w !! p = Some f → writable f = true →
  json_dump o p indent w =
  (Return (),
   World (<[p := File (readable f) true (map byte_of_N (json_dumps indent o))]>
            (files w))
         (stdout w)).
Proof.
  intros Hf Hw. unfold json_dump, py_bind, open_truncate.
  rewrite Hf, Hw. unfold set_file, write_text. cbn [files stdout].
  destruct (encode_text_written (json_dumps indent o)
              (iterencode_written indent o 0)) as [-> _].
  rewrite lookup_insert_eq. unfold set_file. cbn [files stdout readable writable].
  by rewrite insert_insert_eq.
Qed.

Lemma json_dump_refused (o : value) (p : path) (indent : nat) (w : world) (f : file) :
  files w !! p = Some f → writable f = false →
  json_dump o p indent w = (Raise PermissionError, w).
Proof.
  intros Hf Hw. unfold json_dump, py_bind, open_truncate. by rewrite Hf, Hw.
Qed.

(** The outcome of [configure_storage] in every case: each way to fail
    leaves the world as it was, and nothing fails once the file is open
    for writing. *)
Lemma configure_storage_run (config_file : path) (storage_path : str) (w : world) :
  configure_storage config_file storage_path w =
  match files w !! config_file with
  | None => (Raise FileNotFoundError, w)
  | Some f =>
      if readable f then
        match decode_text (content f) with
        | None => (Raise UnicodeDecodeError, w)
        | Some text =>
            match json_loads text with
            | None => (Raise JSONDecodeError, w)
            | Some (VDict d) =>
                if writable f
                then (Return (), configured w config_file d storage_path)
                else (Raise PermissionError, w)
            | Some _ => (Raise TypeError, w)
            end
        end
      else (Raise PermissionError, w)
  end.
Proof.
  unfold configure_storage, json_load, py_bind, read_text.
  destruct (files w !! config_file) as [f|] eqn:Hf; [|done].
  destruct (readable f) eqn:Hr; [|done].
  destruct (decode_text (content f)) as [text|]; [|done].
  destruct (json_loads text) as [v|]; [|done].
  destruct v as [|b|z|x|s|l|d]; try done.
  cbn [setitem py_ret].
  destruct (writable f) eqn:Hw.
  - rewrite (json_dump_run _ _ _ _ f Hf Hw). unfold print, configured, patched.
    cbn [files stdout]. by rewrite Hr.
  - by rewrite (json_dump_refused _ _ _ _ f Hf Hw).
Qed.

(** A run that returns: what it found and what it left. *)
Lemma configure_storage_returns (config_file : path) (storage_path : str)
    (w w' : world) :
  configure_storage config_file storage_path w = (Return (), w') →
  ∃ f text d,
    files w !! config_file = Some f
    ∧ readable f = true ∧ writable f = true
    ∧ decode_text (content f) = Some text
    ∧ json_loads text = Some (VDict d)
    ∧ w' = configured w config_file d storage_path.
Proof.
  rewrite configure_storage_run.
  destruct (files w !! config_file) as [f|] eqn:Hf; [|done].
  destruct (readable f) eqn:Hr; [|done].
  destruct (decode_text (content f)) as [text|] eqn:Ht; [|done].
  destruct (json_loads text) as [v|] eqn:Hv; [|done].
  destruct v as [|b|z|x|s|l|d]; try done.
  destruct (writable f) eqn:Hw; [|done].
  intros [= <-]. by exists f, text, d.
Qed.

(** *** The document written *)

Lemma storage_block_well_formed (storage_path : str) :
  is_text storage_path = true →
  well_formed (storage_block storage_path) = true.
Proof.
  intros H. unfold storage_block. cbn [well_formed forallb map fst].
  rewrite H. vm_compute. done.
Qed.

Lemma dict_set_well_formed (d : dict) (k : str) (v : value) :
  well_formed (VDict d) = true → is_text k = true → well_formed v = true →
  well_formed (VDict (dict_set d k v)) = true.
Proof.
  cbn [well_formed]. intros Hd Hk Hv.
  apply andb_true_iff in Hd as [Hnd Hent]. apply andb_true_iff. split.
  - apply bool_decide_eq_true. apply bool_decide_eq_true in Hnd.
    by apply dict_set_keys_NoDup.
  - apply dict_set_entries; [|done|by rewrite Hk, Hv].
    intros k' v' HP. destruct (decide (k' = k)) as [->|]; [left|by right].
    by rewrite Hk, Hv.
Qed.

(** The text written does not tell a surrogate pair from the code point it
    encodes. *)
Lemma storage_block_encoded (storage_path : str) (level : nat) :
  iterencode 2 (storage_block (join_pairs storage_path)) level
  = iterencode 2 (storage_block storage_path) level.
Proof.
  unfold storage_block. cbn [iterencode map]. by rewrite encode_join_pairs.
Qed.

Lemma dict_set_encoded (d : dict) (k : str) (v v' : value) :
  (∀ level, iterencode 2 v level = iterencode 2 v' level) →
  map (fun kv => match kv with
                 | (key, x) =>
                     encode_basestring_ascii key ++ 58 :: 32 :: iterencode 2 x 1
                 end) (dict_set d k v)
  = map (fun kv => match kv with
                   | (key, x) =>
                       encode_basestring_ascii key ++ 58 :: 32 :: iterencode 2 x 1
                   end) (dict_set d k v').
Proof.
  intros Hv. induction d as [|[k' x] d IH]; cbn [dict_set map].
  - by rewrite Hv.
  - destruct (decide (k' = k)); cbn [map]; [by rewrite Hv|by rewrite IH].
Qed.

Lemma patched_encoded (d : dict) (storage_path : str) :
  json_dumps 2 (patched d (join_pairs storage_path))
  = json_dumps 2 (patched d storage_path).
Proof.
  unfold json_dumps, patched. cbn [iterencode].
  by rewrite (dict_set_encoded d _ _ (storage_block storage_path)
                (storage_block_encoded storage_path)).
Qed.

Lemma patched_well_formed (d : dict) (storage_path : str) :
  well_formed (VDict d) = true → is_str storage_path = true →
  well_formed (patched d (join_pairs storage_path)) = true.
Proof.
  intros Hd Hs. apply dict_set_well_formed; [done..|].
  apply storage_block_well_formed. unfold is_text.
  by rewrite is_str_join_pairs, no_pair_join_pairs.
Qed.

(** What a successful run leaves on disk reads back as the document
    written, the storage path with its surrogate pairs joined. *)
Lemma reread_configured (w : world) (config_file : path) (d : dict)
    (storage_path : str) :
  well_formed (VDict d) = true → is_str storage_path = true →
  reread (configured w config_file d storage_path) config_file
  = Some (patched d (join_pairs storage_path)).
Proof.
  intros Hd Hs. unfold reread, configured. cbn [files].
  rewrite lookup_insert_eq. cbn [content].
  destruct (encode_text_written (json_dumps 2 (patched d storage_path))
              (iterencode_written 2 _ 0)) as [_ ->].
  rewrite <- patched_encoded. apply loads_dumps. by apply patched_well_formed.
Qed.

Lemma reread_standard_configured (w : world) (config_file : path) (d : dict)
    (storage_path : str) :
  well_formed (VDict d) = true → is_str storage_path = true →
  finite (VDict d) = true →
  reread_standard (configured w config_file d storage_path) config_file
  = Some (patched d (join_pairs storage_path)).
Proof.
  intros Hd Hs Hfin. unfold reread_standard, configured. cbn [files].
  rewrite lookup_insert_eq. cbn [content].
  destruct (encode_text_written (json_dumps 2 (patched d storage_path))
              (iterencode_written 2 _ 0)) as [_ ->].
  rewrite <- patched_encoded.
  apply standard_loads_dumps; [by apply patched_well_formed|].
  unfold patched. cbn [finite] in *.
  apply (dict_set_entries (fun kv => match kv with (_, x) => finite x end));
    [|done..].
  intros k' v' _. destruct (decide (k' = lit "storage")); [by left|by right].
Qed.

(** The document a run found in the file is well formed. *)
Lemma found_well_formed (f : file) (text : str) (v : value) :
  decode_text (content f) = Some text → json_loads text = Some v →
  well_formed v = true.
Proof.
  intros Ht Hv. apply (decode_well_formed true text v); [|done].
  by apply (decode_text_scalar (content f)).
Qed.

End Run.

(** ** A model of the floats

    The interface [FloatModel] is inhabited: here the finite floats are the
    integers, written with a fraction of zero ([1.0], [-3.0]) and read back
    by their integer part.  It stands in for binary64 where a concrete
    document is run; no document below holds a finite float. *)

Lemma span_digits_stop (ds rest : str) :
  forallb is_digit ds = true →
  match rest with [] => True | c :: _ => is_digit c = false end →
  span_digits (ds ++ rest) = (ds, rest).
Proof.
  intros Hds Hrest. induction ds as [|c ds IH]; simpl.
  - destruct rest as [|c rest]; [done|]. simpl. by rewrite Hrest.
  - simpl in Hds. bools. replace (is_digit c) with true. by rewrite IH.
Qed.

Lemma match_integer_int_repr (z : Z) (rest : str) :
  match rest with [] => True | c :: _ => is_digit c = false end →
  match_integer (int_repr z ++ rest) = Some (int_repr z, rest).
Proof.
  intros Hrest.
  assert (∀ sg n, match_unsigned sg (digits n ++ rest)
                  = Some (sg ++ digits n, rest)) as Hdigits.
  { intros sg n. destruct (N.eq_dec n 0) as [->|Hn]; [done|].
    destruct (digits_head n Hn) as (c & r & E & Hc).
    pose proof (digits_all_digit n) as Hall. rewrite E in *.
    simpl in Hall. bools. cbn [app match_unsigned].
    destruct (N.eqb_spec c 48); [lia|]. replace (is_digit c) with true.
    by rewrite span_digits_stop. }
  destruct z as [|p|p].
  - apply (Hdigits [] 0).
  - unfold int_repr. change (Z.to_N (Z.pos p)) with (N.pos p).
    destruct (digits_head (N.pos p) ltac:(done)) as (c & r & E & Hc).
    pose proof (Hdigits [] (N.pos p)) as Hd. rewrite E in *.
    cbn [app match_integer]. destruct (N.eqb_spec c 45); [lia|]. exact Hd.
  - unfold int_repr, ch_minus. cbn [app match_integer N.eqb Pos.eqb].
    apply (Hdigits [45]).
Qed.

Definition integral_of_text (t : str) : pyfloat Z :=
  match match_integer t with
  | Some (i, _) => Finite (int_of_text i)
  | None => NaN
  end.

Definition integral_repr (z : Z) : str := int_repr z ++ [46; 48].

Lemma integral_repr_literal (z : Z) : is_float_literal (integral_repr z) = true.
Proof.
  unfold is_float_literal, match_number, integral_repr.
  by rewrite match_integer_int_repr.
Qed.

Lemma integral_repr_round_trip (z : Z) :
  integral_of_text (integral_repr z) = Finite z.
Proof.
  unfold integral_of_text, integral_repr.
  rewrite match_integer_int_repr by done. by rewrite int_of_text_repr.
Qed.

Definition integral_floats : FloatModel := {|
  double := Z;
  float_of_text := integral_of_text;
  float_repr := integral_repr;
  float_repr_literal := integral_repr_literal;
  float_repr_round_trip := integral_repr_round_trip;
|}.

(** * The claims *)

Section Claims.
Context {FM : FloatModel}.

(** The text of a non-empty object at the top level, as the spec describes
    it: every member on a line of its own after two spaces, the closing
    brace on the last line. *)
Definition top_level_layout (d : dict) : str :=
  123 :: 10 :: 32 :: 32
    :: join_items [44; 10; 32; 32]
         (map (fun kv =>
                 match kv with
                 | (k, v) =>
                     encode_basestring_ascii k ++ 58 :: 32 :: iterencode 2 v 1
                 end) d)
    ++ [10; 125].

Lemma dict_set_nonempty (d : dict) (k : str) (v : value) : dict_set d k v ≠ [].
Proof. destruct d as [|[k' v'] d]; simpl; [done|]. by destruct (decide _). Qed.

Lemma dumps_top_level (d : dict) :
  d ≠ [] → json_dumps 2 (VDict d) = top_level_layout d.
Proof. destruct d as [|kv d]; [done|]. intros _. done. Qed.

Lemma reread_found (w : world) (p : path) (f : file) (text : str) (v : value) :
  files w !! p = Some f → decode_text (content f) = Some text →
  json_loads text = Some v → reread w p = Some v.
Proof. intros Hf Ht Hv. unfold reread. by rewrite Hf, Ht. Qed.

Lemma configure_storage_found (config_file : path) (storage_path : str)
    (w : world) (f : file) (text : str) (d : dict) :
  files w !! config_file = Some f →
  readable f = true →
  decode_text (content f) = Some text →
  json_loads text = Some (VDict d) →
  writable f = true →
  configure_storage config_file storage_path w
  = (Return (), configured w config_file d storage_path).
Proof.
  intros Hf Hr Ht Hv Hw. rewrite configure_storage_run.
  by rewrite Hf, Hr, Ht, Hv, Hw.
Qed.


(** C2.  After a successful run the members of the document other than
    ['storage'] are those of the document read, with the same values, in
    the same order: none added, none removed. *)
Theorem other_members_preserved (config_file : path) (storage_path : str)
    (w w' : world) :
  configure_storage config_file storage_path w = (Return (), w') →
  is_str storage_path = true →
  ∃ d d',
    reread w config_file = Some (VDict d)
    ∧ reread w' config_file = Some (VDict d')
    ∧ others (lit "storage") d' = others (lit "storage") d.
Proof.
  intros Hrun Hsp.
  apply configure_storage_returns in Hrun
    as (f & text & d & Hf & Hr & Hw & Ht & Hv & ->).
  pose proof (found_well_formed f text _ Ht Hv) as Hd.
  exists d,
    (dict_set d (lit "storage") (storage_block (join_pairs storage_path))).
  split; [by apply (reread_found w config_file f text)|].
  split; [by rewrite reread_configured|].
  apply dict_set_others.
Qed.

(** C3.  A run that fails, for whatever reason, leaves the world as it
    was: the file, byte for byte, and the output. *)
Theorem failure_changes_nothing (config_file : path) (storage_path : str)
    (w w' : world) (e : exn) :
  configure_storage config_file storage_path w = (Raise e, w') → w' = w.
Proof.
  rewrite configure_storage_run.
  destruct (files w !! config_file) as [f|]; [|by intros [= _ <-]].
  destruct (readable f); [|by intros [= _ <-]].
  destruct (decode_text (content f)) as [text|]; [|by intros [= _ <-]].
  destruct (json_loads text) as [v|]; [|by intros [= _ <-]].
  destruct v as [|b|z|x|s|l|d]; try by intros [= _ <-].
  destruct (writable f); [done|by intros [= _ <-]].
Qed.

(** C4.  A second run with the same storage path succeeds and leaves the
    files exactly as the first run left them. *)
Theorem configure_storage_idempotent (config_file : path) (storage_path : str)
    (w w1 : world) :
  configure_storage config_file storage_path w = (Return (), w1) →
  is_str storage_path = true →
  ∃ w2,
    configure_storage config_file storage_path w1 = (Return (), w2)
    ∧ files w2 = files w1.
Proof.
  intros Hrun Hsp.
  apply configure_storage_returns in Hrun
    as (f & text & d & Hf & Hr & Hw & Ht & Hv & ->).
  pose proof (found_well_formed f text _ Ht Hv) as Hd.
  exists (configured (configured w config_file d storage_path) config_file
            (dict_set d (lit "storage") (storage_block (join_pairs storage_path)))
            storage_path).
  split.
  - apply (configure_storage_found _ _ _
             (File true true
                (map byte_of_N (json_dumps 2 (patched d storage_path))))
             (json_dumps 2 (patched d storage_path))); try done.
    + unfold configured. cbn [files]. apply lookup_insert_eq.
    + cbn [content].
      by destruct (encode_text_written (json_dumps 2 (patched d storage_path))
                     (iterencode_written 2 _ 0)) as [_ ->].
    + rewrite <- patched_encoded. apply loads_dumps.
      by apply patched_well_formed.
  - unfold configured, patched. cbn [files].
    by rewrite dict_set_set, insert_insert_eq.
Qed.

(** C5, as amended.  Ways [configure_storage] fails, each with its
    exception and each leaving the world as it was: no file
    ([FileNotFoundError]); a file that cannot be read ([PermissionError]);
    bytes that are not UTF-8 ([UnicodeDecodeError]); and, for a text within
    the limits of the interpreter: a text Python's parser rejects
    ([JSONDecodeError]: it accepts NaN, Infinity and -Infinity, which are
    not JSON); a document that is not an object ([TypeError]); a file that
    cannot be opened for writing ([PermissionError]).  The list is not
    claimed to be closed. *)
Theorem failure_conditions (config_file : path) (storage_path : str) (w : world) :
  let run := configure_storage config_file storage_path w in
  (files w !! config_file = None → run = (Raise FileNotFoundError, w))
  ∧ (∀ f, files w !! config_file = Some f →
       (readable f = false → run = (Raise PermissionError, w))
       ∧ (readable f = true →
          (decode_text (content f) = None → run = (Raise UnicodeDecodeError, w))
          ∧ (∀ text, decode_text (content f) = Some text →
               within_limits text = true →
               (json_loads text = None → run = (Raise JSONDecodeError, w))
               ∧ (∀ v, json_loads text = Some v →
                    (match v with VDict _ => False | _ => True end →
                     run = (Raise TypeError, w))
                    ∧ (∀ d, v = VDict d → writable f = false →
                         run = (Raise PermissionError, w)))))).
Proof.
  cbv zeta. rewrite configure_storage_run. split.
  { by intros ->. }
  intros f ->. split; [by intros ->|]. intros ->. split; [by intros ->|].
  intros text -> _. split; [by intros ->|]. intros v ->. split.
  - by destruct v.
  - by intros d -> ->.
Qed.

(** C6.  Started with a number of arguments other than two, none
    included, the program prints the line
    [Usage: <program> <config_file> <storage_path>], exits with status 1
    and leaves every file as it was. *)
Theorem wrong_argument_count (prog : str) (args : list str) (w : world) :
  length args ≠ 2%nat →
  main (prog :: args) w
  = (Raise (SystemExit 1),
     World (files w)
       (stdout w ++ [lit "Usage: " ++ prog ++ lit " <config_file> <storage_path>"]))
  ∧ exit_status (main (prog :: args) w).1 = 1.
Proof.
  intros Hargs. unfold main.
  rewrite bool_decide_eq_true_2 by (simpl; lia). done.
Qed.

(** C7, as amended.  Started with its two arguments on a file that can be
    read and written, whose text is within the limits of the interpreter
    and parses to an object, the program prints the line
    [Storage adapter configured successfully] and exits with status 0. *)
Theorem success_reported (prog : str) (config_file : path) (storage_path : str)
    (w : world) (f : file) (text : str) (d : dict) :
  files w !! config_file = Some f →
  readable f = true →
  writable f = true →
  decode_text (content f) = Some text →
  within_limits text = true →
  json_loads text = Some (VDict d) →
  ∃ w',
    main [prog; config_file; storage_path] w = (Return (), w')
    ∧ exit_status (main [prog; config_file; storage_path] w).1 = 0
    ∧ stdout w'
      = stdout w ++ [lit "Storage adapter configured successfully"]
    ∧ files w' = files (configured w config_file d storage_path).
Proof.
  intros Hf Hr Hw Ht _ Hv.
  exists (configured w config_file d storage_path).
  unfold main. rewrite bool_decide_eq_false_2 by (simpl; lia).
  unfold py_bind, argv_get, py_ret. cbn [lookup list_lookup].
  by rewrite (configure_storage_found _ _ _ f text d).
Qed.

(** C8, as amended.  After a successful run the file reads back, with
    Python's parser, as a JSON object; a parser of the JSON grammar proper
    reads the same object when the document holds no NaN and no infinity.
    The text is laid out with an indent of two spaces. *)
Theorem written_file_parses (config_file : path) (storage_path : str)
    (w w' : world) :
  configure_storage config_file storage_path w = (Return (), w') →
  is_str storage_path = true →
  ∃ d d' f',
    reread w config_file = Some (VDict d)
    ∧ reread w' config_file = Some (VDict d')
    ∧ (finite (VDict d) = true →
       reread_standard w' config_file = Some (VDict d'))
    ∧ files w' !! config_file = Some f'
    ∧ decode_text (content f')
      = Some (top_level_layout
                (dict_set d (lit "storage") (storage_block storage_path))).
Proof.
  intros Hrun Hsp.
  apply configure_storage_returns in Hrun
    as (f & text & d & Hf & Hr & Hw & Ht & Hv & ->).
  pose proof (found_well_formed f text _ Ht Hv) as Hd.
  exists d,
    (dict_set d (lit "storage") (storage_block (join_pairs storage_path))).
  eexists.
  split; [by apply (reread_found w config_file f text)|].
  split; [by rewrite reread_configured|].
  split; [intros Hfin; by rewrite reread_standard_configured|].
  unfold configured. cbn [files]. rewrite lookup_insert_eq.
  split; [done|]. cbn [content].
  destruct (encode_text_written (json_dumps 2 (patched d storage_path))
              (iterencode_written 2 _ 0)) as [_ ->].
  unfold patched. by rewrite dumps_top_level by apply dict_set_nonempty.
Qed.

(** C9, as amended.  Once the file has been read and parsed to an object,
    nothing fails provided the file can be opened for writing: the
    assignment and the serialisation always succeed, and the write
    completes. *)
Theorem no_failure_after_parse (config_file : path) (storage_path : str)
    (w : world) (f : file) (text : str) (d : dict) :
  files w !! config_file = Some f →
  readable f = true →
  decode_text (content f) = Some text →
  json_loads text = Some (VDict d) →
  writable f = true →
  configure_storage config_file storage_path w
  = (Return (), configured w config_file d storage_path).
Proof.
  intros Hf Hr Ht Hv Hw. by apply (configure_storage_found _ _ _ f text).
Qed.

(** C10.  After a successful run the file holds the text [json.dumps]
    gives for the patched document, and every byte of it is ASCII: a code
    point above [~], in the storage path or anywhere in the document, is
    written as a [\uXXXX] escape, or as two for a code point above the
    BMP. *)
Theorem written_file_ascii (config_file : path) (storage_path : str)
    (w w' : world) :
  configure_storage config_file storage_path w = (Return (), w') →
  (∃ f' d,
     files w' !! config_file = Some f'
     ∧ reread w config_file = Some (VDict d)
     ∧ content f' = map byte_of_N (json_dumps 2 (patched d storage_path))
     ∧ Forall (fun b => Byte.to_N b < 128) (content f'))
  ∧ (∀ c, 126 < c → is_codepoint c = true →
       escape_char c = 92 :: 117 :: hex4 c
       ∨ ∃ hi lo,
           is_high hi = true ∧ is_low lo = true
           ∧ escape_char c = 92 :: 117 :: hex4 hi ++ 92 :: 117 :: hex4 lo).
Proof.
  intros Hrun.
  apply configure_storage_returns in Hrun
    as (f & text & d & Hf & Hr & Hw & Ht & Hv & ->).
  split.
  - eexists _, d. unfold configured. cbn [files]. rewrite lookup_insert_eq.
    split; [done|]. cbn [content].
    split; [by apply (reread_found w config_file f text)|]. split; [done|].
    apply bytes_written_ascii, iterencode_written.
  - intros c Hc Hcp. destruct (escape_char_shape c Hcp) as [| x Hx Hb | |hi lo].
    + lia.
    + revert Hb. unfold backslash.
      repeat (destruct (_ =? _); [intros [= <-]; lia|]). done.
    + by left.
    + right. by exists hi, lo.
Qed.

End Claims.

(** * More on the script

    What else the two blocks of the script do: where the [storage] member
    goes, which files a run can touch, how runs compose, which files are
    refused. *)

Section More.
Context {FM : FloatModel}.

(** ** Tools *)

(** The keys after [d[k] = v]: an existing key keeps its place, a new one
    goes last. *)
Lemma dict_set_keys (d : dict) (k : str) (v : value) :
  map fst (dict_set d k v)
  = if bool_decide (k ∈ map fst d) then map fst d else map fst d ++ [k].
Proof.
  induction d as [|[k' v'] d IH].
  - cbn [dict_set map fst app].
    by rewrite bool_decide_eq_false_2 by apply not_elem_of_nil.
  - cbn [dict_set]. destruct (decide (k' = k)) as [->|Hne]; cbn [map fst].
    + by rewrite bool_decide_eq_true_2 by (apply elem_of_cons; by left).
    + rewrite IH. destruct (bool_decide_reflect (k ∈ map fst d)) as [Hin|Hout].
      * by rewrite bool_decide_eq_true_2 by (apply elem_of_cons; by right).
      * rewrite bool_decide_eq_false_2; [done|].
        intros [?|?]%elem_of_cons; congruence.
Qed.

(** A run on what a successful run left: the file is read back as the
    document written and patched again. *)
Lemma rerun_configured (config_file : path) (sp1 sp2 : str) (w : world)
    (d : dict) :
  well_formed (VDict d) = true → is_str sp1 = true →
  configure_storage config_file sp2 (configured w config_file d sp1)
  = (Return (),
     configured (configured w config_file d sp1) config_file
       (dict_set d (lit "storage") (storage_block (join_pairs sp1))) sp2).
Proof.
  intros Hd Hsp.
  apply (configure_storage_found _ _ _
           (File true true (map byte_of_N (json_dumps 2 (patched d sp1))))
           (json_dumps 2 (patched d sp1))); try done.
  - unfold configured. cbn [files]. apply lookup_insert_eq.
  - cbn [content].
    by destruct (encode_text_written (json_dumps 2 (patched d sp1))
                   (iterencode_written 2 _ 0)) as [_ ->].
  - rewrite <- patched_encoded. apply loads_dumps. by apply patched_well_formed.
Qed.

(** The failures [configure_storage] has in this model, all before anything
    is written. *)
Lemma configure_storage_raises (config_file : path) (storage_path : str)
    (w w' : world) (e : exn) :
  configure_storage config_file storage_path w = (Raise e, w') →
  w' = w
  ∧ e ∈ [FileNotFoundError; PermissionError; UnicodeDecodeError;
         JSONDecodeError; TypeError].
Proof.
  rewrite configure_storage_run.
  destruct (files w !! config_file) as [f|];
    [|intros [= <- <-]; split; [done|set_solver]].
  destruct (readable f); [|intros [= <- <-]; split; [done|set_solver]].
  destruct (decode_text (content f)) as [text|];
    [|intros [= <- <-]; split; [done|set_solver]].
  destruct (json_loads text) as [v|];
    [|intros [= <- <-]; split; [done|set_solver]].
  destruct v as [|b|z|x|s|l|d];
    try (intros [= <- <-]; split; [done|set_solver]).
  destruct (writable f); [done|intros [= <- <-]; split; [done|set_solver]].
Qed.

(** ** Where the member goes *)

(** X1.  After a successful run the keys of the document are those it had, in
    the order they had: ['storage'] stays where it was, and goes last when
    the document had none. *)
Theorem storage_key_position (config_file : path) (storage_path : str)
    (w w' : world) :
  configure_storage config_file storage_path w = (Return (), w') →
  is_str storage_path = true →
  ∃ d d',
    reread w config_file = Some (VDict d)
    ∧ reread w' config_file = Some (VDict d')
    ∧ map fst d'
      = if bool_decide (lit "storage" ∈ map fst d)
        then map fst d
        else map fst d ++ [lit "storage"].
Proof.
  intros Hrun Hsp.
  apply configure_storage_returns in Hrun
    as (f & text & d & Hf & Hr & Hw & Ht & Hv & ->).
  pose proof (found_well_formed f text _ Ht Hv) as Hd.
  exists d,
    (dict_set d (lit "storage") (storage_block (join_pairs storage_path))).
  split; [by apply (reread_found w config_file f text)|].
  split; [by rewrite reread_configured|].
  apply dict_set_keys.
Qed.

(** ** What a run can touch *)

(** X2.  Whatever the outcome, a run leaves every file other than the
    configuration file as it was: none created, none removed, none
    changed. *)
Theorem other_files_untouched (config_file : path) (storage_path : str)
    (w w' : world) (o : outcome unit) (p : path) :
  configure_storage config_file storage_path w = (o, w') →
  p ≠ config_file →
  files w' !! p = files w !! p.
Proof.
  intros Hrun Hp. destruct o as [[]|e].
  - apply configure_storage_returns in Hrun
      as (f & text & d & _ & _ & _ & _ & _ & ->).
    unfold configured. cbn [files]. by rewrite lookup_insert_ne.
  - by apply configure_storage_raises in Hrun as [-> _].
Qed.

(** X3.  With its two arguments, a program that fails has printed nothing
    and changed nothing, and ends on an uncaught exception, not on
    [sys.exit], with exit status 1. *)
Theorem failure_reported (prog : str) (config_file : path)
    (storage_path : str) (w w' : world) (e : exn) :
  main [prog; config_file; storage_path] w = (Raise e, w') →
  w' = w
  ∧ exit_status (main [prog; config_file; storage_path] w).1 = 1
  ∧ ∀ code, e ≠ SystemExit code.
Proof.
  unfold main. rewrite bool_decide_eq_false_2 by (simpl; lia).
  unfold py_bind, argv_get, py_ret. cbn [lookup list_lookup].
  intros Hrun. rewrite Hrun.
  apply configure_storage_raises in Hrun as [-> He]. split; [done|].
  cbn [fst].
  repeat (apply elem_of_cons in He as [->|He]; [done|]).
  by apply elem_of_nil in He.
Qed.

(** ** Runs one after the other *)

(** X4.  The last path wins: after a successful run, a run with any other path
    succeeds too and leaves the files as that run alone would have. *)
Theorem last_path_wins (config_file : path) (sp1 sp2 : str) (w w1 : world) :
  configure_storage config_file sp1 w = (Return (), w1) →
  is_str sp1 = true →
  ∃ w2 w12,
    configure_storage config_file sp2 w = (Return (), w2)
    ∧ configure_storage config_file sp2 w1 = (Return (), w12)
    ∧ files w12 = files w2.
Proof.
  intros Hrun Hsp.
  apply configure_storage_returns in Hrun
    as (f & text & d & Hf & Hr & Hw & Ht & Hv & ->).
  pose proof (found_well_formed f text _ Ht Hv) as Hd.
  eexists _, _. split; [by apply (configure_storage_found _ _ _ f text)|].
  split; [by apply rerun_configured|].
  unfold configured, patched. cbn [files].
  by rewrite dict_set_set, insert_insert_eq.
Qed.

(** X5.  The file written depends on the document read and on nothing else of
    the file it was read from: two files that parse to the same document,
    however they spell it, are rewritten to the same bytes. *)
Theorem spelling_forgotten (cf1 cf2 : path) (storage_path : str)
    (w1 w1' w2 w2' : world) :
  configure_storage cf1 storage_path w1 = (Return (), w1') →
  configure_storage cf2 storage_path w2 = (Return (), w2') →
  reread w1 cf1 = reread w2 cf2 →
  ∃ f1 f2,
    files w1' !! cf1 = Some f1 ∧ files w2' !! cf2 = Some f2
    ∧ content f1 = content f2.
Proof.
  intros Hrun1 Hrun2 Hsame.
  apply configure_storage_returns in Hrun1
    as (f1 & t1 & d1 & Hf1 & _ & _ & Ht1 & Hv1 & ->).
  apply configure_storage_returns in Hrun2
    as (f2 & t2 & d2 & Hf2 & _ & _ & Ht2 & Hv2 & ->).
  rewrite (reread_found w1 cf1 f1 t1 _ Hf1 Ht1 Hv1) in Hsame.
  rewrite (reread_found w2 cf2 f2 t2 _ Hf2 Ht2 Hv2) in Hsame.
  injection Hsame as ->.
  eexists _, _. unfold configured. cbn [files]. rewrite !lookup_insert_eq.
  done.
Qed.

(** ** Files that are refused *)

Lemma is_ws_ascii (c : N) : is_ws c = true → c < 128 ∧ is_ws (if c =? 13 then 10 else c) = true.
Proof.
  unfold is_ws. intros H.
  repeat (apply orb_true_iff in H as [H|H]); apply N.eqb_eq in H as ->; done.
Qed.

Lemma utf8_decode_ws (s : str) :
  forallb is_ws s = true → utf8_decode s = Some s.
Proof.
  induction s as [|c s IH]; [done|]. cbn [forallb utf8_decode]. intros H. bools.
  destruct (is_ws_ascii c) as [Hc _]; [done|].
  destruct (N.ltb_spec c 128); [|lia]. by rewrite IH.
Qed.

Lemma universal_newlines_ws (s : str) :
  forallb is_ws s = true → forallb is_ws (universal_newlines s) = true.
Proof.
  remember (length s) as n eqn:Hn. revert s Hn.
  induction n as [n IH] using lt_wf_ind. intros s -> H.
  destruct s as [|c s]; [done|]. cbn [forallb] in H. bools.
  cbn [universal_newlines]. destruct (N.eqb_spec c 13) as [->|Hc].
  - destruct s as [|c' s']; [done|]. cbn [forallb] in *. bools.
    destruct (N.eqb_spec c' 10) as [->|Hc'].
    + apply (IH (length s')); simpl; [lia|done..].
    + change (forallb is_ws (universal_newlines (c' :: s')) = true).
      apply (IH (length (c' :: s'))); simpl; [lia|done|].
      by apply andb_true_iff.
  - cbn [forallb]. apply andb_true_iff. split; [done|].
    apply (IH (length s)); simpl; [lia|done..].
Qed.

Lemma skip_ws_all (s : str) : forallb is_ws s = true → skip_ws s = [].
Proof.
  induction s as [|c s IH]; [done|]. cbn [forallb skip_ws]. intros H. bools.
  by rewrite H, IH.
Qed.

(** A text of white space holds no document. *)
Lemma json_loads_blank (s : str) :
  forallb is_ws s = true → json_loads s = None.
Proof.
  intros H. unfold json_loads, decode_with. rewrite skip_ws_all by done.
  replace (2 * length s + 2)%nat with (S (2 * length s + 1)) by lia.
  by rewrite scan_once_S.
Qed.

(** X6.  An empty file, or one with nothing but spaces, tabs and line ends, is
    refused as not being JSON, and left as it is. *)
Theorem blank_file_rejected (config_file : path) (storage_path : str)
    (w : world) (f : file) :
  files w !! config_file = Some f →
  readable f = true →
  forallb (fun b => is_ws (Byte.to_N b)) (content f) = true →
  configure_storage config_file storage_path w = (Raise JSONDecodeError, w).
Proof.
  intros Hf Hr Hws. rewrite configure_storage_run, Hf, Hr.
  assert (forallb is_ws (map Byte.to_N (content f)) = true) as Hws'.
  { clear Hf Hr. induction (content f) as [|b bs IH]; [done|].
    cbn [forallb map] in *. bools. apply andb_true_iff. auto. }
  unfold decode_text. rewrite utf8_decode_ws by done. cbn [fmap option_fmap option_map].
  by rewrite json_loads_blank by by apply universal_newlines_ws.
Qed.

(** The text after a byte order mark. *)
Lemma decode_text_bom (rest : list byte) :
  decode_text (xef :: xbb :: xbf :: rest) = cons 0xFEFF <$> decode_text rest.
Proof.
  unfold decode_text. cbn [map]. 
  change (Byte.to_N xef) with 0xEF. change (Byte.to_N xbb) with 0xBB.
  change (Byte.to_N xbf) with 0xBF.
  change (utf8_decode (0xEF :: 0xBB :: 0xBF :: map Byte.to_N rest))
    with (cons 0xFEFF <$> utf8_decode (map Byte.to_N rest)).
  by destruct (utf8_decode (map Byte.to_N rest)).
Qed.

Lemma json_loads_bom (s : str) : json_loads (0xFEFF :: s) = None.
Proof.
  unfold json_loads, decode_with.
  change (skip_ws (0xFEFF :: s)) with (0xFEFF :: s).
  destruct (2 * length (0xFEFF%N :: s) + 2)%nat as [|n] eqn:E; [lia|].
  by rewrite scan_once_S.
Qed.

(** X7.  A file that starts with the UTF-8 byte order mark is refused, whatever
    follows: as not being JSON when the rest is UTF-8, as not being UTF-8
    otherwise. *)
Theorem byte_order_mark_rejected (config_file : path) (storage_path : str)
    (w : world) (f : file) (rest : list byte) :
  files w !! config_file = Some f →
  readable f = true →
  content f = xef :: xbb :: xbf :: rest →
  configure_storage config_file storage_path w
  = (Raise (match decode_text rest with
            | Some _ => JSONDecodeError
            | None => UnicodeDecodeError
            end), w).
Proof.
  intros Hf Hr Hc. rewrite configure_storage_run, Hf, Hr, Hc, decode_text_bom.
  destruct (decode_text rest) as [t|]; [|done].
  cbn [fmap option_fmap option_map]. by rewrite json_loads_bom.
Qed.

(** ** The file written *)

Lemma bytes_written_plain (s : str) :
  forallb is_written s = true →
  Forall (fun b => Byte.to_N b = 10 ∨ 32 <= Byte.to_N b <= 126)
         (map byte_of_N s).
Proof.
  induction s as [|c s IH]; [constructor|]. cbn [forallb map]. intros H. bools.
  constructor; [|by apply IH].
  destruct (written_ascii c) as [Hc _]; [done|].
  rewrite to_N_byte_of_N by lia. unfold is_written in *.
  match goal with
  | H : _ || _ = true |- _ => apply orb_true_iff in H as [H|H]; bools; lia
  end.
Qed.

(** X8.  After a successful run the file holds printable ASCII and line feeds
    only, no tab and no carriage return whatever the line ends and the
    indentation of the file read, and it ends with the closing brace, not
    with a line end. *)
Theorem written_file_plain (config_file : path) (storage_path : str)
    (w w' : world) :
  configure_storage config_file storage_path w = (Return (), w') →
  ∃ f',
    files w' !! config_file = Some f'
    ∧ Forall (fun b => Byte.to_N b = 10 ∨ 32 <= Byte.to_N b <= 126)
             (content f')
    ∧ last (content f') = Some "}"%byte.
Proof.
  intros Hrun.
  apply configure_storage_returns in Hrun
    as (f & text & d & Hf & Hr & Hw & Ht & Hv & ->).
  eexists. unfold configured. cbn [files]. rewrite lookup_insert_eq.
  split; [done|]. cbn [content]. split.
  - apply bytes_written_plain, iterencode_written.
  - unfold patched. rewrite dumps_top_level by apply dict_set_nonempty.
    unfold top_level_layout.
    rewrite !app_comm_cons, map_app, last_app. done.
Qed.

(** X9.  The file is the text of the document it parses to, to the byte: reading
    it and writing the document again would change nothing.  The keys of
    that document are distinct, even where the file read repeated one. *)
Theorem written_file_canonical (config_file : path) (storage_path : str)
    (w w' : world) :
  configure_storage config_file storage_path w = (Return (), w') →
  is_str storage_path = true →
  ∃ d' f',
    reread w' config_file = Some (VDict d')
    ∧ NoDup (map fst d')
    ∧ files w' !! config_file = Some f'
    ∧ content f' = map byte_of_N (json_dumps 2 (VDict d')).
Proof.
  intros Hrun Hsp.
  apply configure_storage_returns in Hrun
    as (f & text & d & Hf & Hr & Hw & Ht & Hv & ->).
  pose proof (found_well_formed f text _ Ht Hv) as Hd.
  pose proof (patched_well_formed d storage_path Hd Hsp) as Hp.
  eexists _, _. split; [by apply reread_configured|].
  split.
  - unfold patched in Hp. cbn [well_formed] in Hp.
    apply andb_true_iff in Hp as [Hnd _]. by apply bool_decide_eq_true in Hnd.
  - unfold configured. cbn [files]. rewrite lookup_insert_eq.
    split; [done|]. cbn [content].
    by rewrite <- (patched_encoded d storage_path).
Qed.

(** ** Writing, then reading *)

(** X10.  The two blocks of the script, the second before the first: a value
    [json.load] can give, written to a file that can be read and written,
    is read back as it was, at any indent; no other file is touched. *)
Theorem dump_then_load (o : value) (p : path) (indent : nat) (w : world)
    (f : file) :
  files w !! p = Some f →
  readable f = true →
  writable f = true →
  well_formed o = true →
  ∃ w',
    json_dump o p indent w = (Return (), w')
    ∧ json_load p w' = (Return o, w')
    ∧ ∀ q, q ≠ p → files w' !! q = files w !! q.
Proof.
  intros Hf Hr Hw Ho. eexists. split; [by apply (json_dump_run o p indent w f)|].
  split.
  - unfold json_load, py_bind, read_text. cbn [files].
    rewrite lookup_insert_eq. cbn [readable content]. rewrite Hr.
    destruct (encode_text_written (json_dumps indent o)
                (iterencode_written indent o 0)) as [_ ->].
    by rewrite loads_dumps.
  - intros q Hq. cbn [files]. by rewrite lookup_insert_ne.
Qed.

End More.

(** * Worked runs

    The runs below are evaluated with [integral_floats] for the floating
    point numbers. *)

#[local] Existing Instance integral_floats.

Definition quoted (s : str) : str := 34 :: s ++ [34].

(** A disk with one file. *)
Definition disk (p : path) (f : file) : world := World {[ p := f ]} [].

Definition config_json : path := lit "config.json".

(** Scenario 1 of the spec: the document [{url: http://x}] and the storage
    path [/var/data]. *)
Definition url_document : str :=
  123 :: quoted (lit "url") ++ 58 :: 32 :: quoted (lit "http://x") ++ [125].

Definition url_entries : dict := [(lit "url", VStr (lit "http://x"))].

Definition url_disk : world :=
  disk config_json (File true true (map byte_of_N url_document)).

Definition var_data : str := lit "/var/data".

(** The same file without the permission to write it. *)
Definition read_only_disk : world :=
  disk config_json (File true false (map byte_of_N url_document)).

(** Scenario 3: a file that is not JSON. *)
Definition not_json_disk : world :=
  disk config_json (File true true (map byte_of_N (lit "not json"))).

(** A document Python reads and the JSON grammar does not have. *)
Definition nan_document : str :=
  123 :: quoted (lit "a") ++ 58 :: 32 :: lit "NaN}".

Definition nan_disk : world :=
  disk config_json (File true true (map byte_of_N nan_document)).



Definition url_done : world :=
  configured url_disk config_json url_entries var_data.





(** A document and a storage path with characters outside ASCII: e acute,
    two bytes in the file, and U+1F600. *)
Definition accent_disk : world :=
  disk config_json
    (File true true
       (map byte_of_N
          (123 :: quoted (lit "a") ++ 58 :: 32 :: 34 :: 0xC3 :: 0xA9 :: [34; 125]))).

Definition accent_entries : dict := [(lit "a", VStr [0xE9])].

Definition accent_done : world :=
  configured accent_disk config_json accent_entries [0x1F600].

Definition nan_entries : dict := [(lit "a", VFloat NaN)].

Definition nan_done : world :=
  configured nan_disk config_json nan_entries var_data.


Definition script : str := lit "configure-storage.py".

(** Scenario 1: the document the run leaves. *)
Example scenario_1 :
  configure_storage config_json var_data url_disk = (Return (), url_done)
  ∧ reread url_done config_json
    = Some (VDict [(lit "url", VStr (lit "http://x"));
                   (lit "storage", storage_block var_data)]).
Proof. split; vm_compute; reflexivity. Qed.

(** How the two characters outside ASCII are written. *)
Example accent_written :
  encode_basestring_ascii [0xE9] = quoted (92 :: lit "u00e9")
  ∧ encode_basestring_ascii [0x1F600]
    = quoted (92 :: lit "ud83d" ++ 92 :: lit "ude00").
Proof. split; vm_compute; reflexivity. Qed.

(** ** The theorems at these runs *)


Lemma other_members_preserved_witness :
  configure_storage config_json var_data url_disk = (Return (), url_done)
  ∧ is_str var_data = true
  ∧ ∃ d d',
      reread url_disk config_json = Some (VDict d)
      ∧ reread url_done config_json = Some (VDict d')
      ∧ others (lit "storage") d' = others (lit "storage") d.
Proof.
  split; [vm_compute; reflexivity|]. split; [reflexivity|].
  apply (other_members_preserved config_json var_data url_disk url_done);
    vm_compute; reflexivity.
Defined.

Lemma failure_changes_nothing_witness :
  configure_storage config_json var_data not_json_disk
  = (Raise JSONDecodeError, not_json_disk)
  ∧ not_json_disk = not_json_disk.
Proof.
  split; [vm_compute; reflexivity|].
  apply (failure_changes_nothing config_json var_data not_json_disk
           not_json_disk JSONDecodeError).
  vm_compute. reflexivity.
Defined.

Lemma configure_storage_idempotent_witness :
  configure_storage config_json var_data url_disk = (Return (), url_done)
  ∧ is_str var_data = true
  ∧ ∃ w2,
      configure_storage config_json var_data url_done = (Return (), w2)
      ∧ files w2 = files url_done.
Proof.
  split; [vm_compute; reflexivity|]. split; [reflexivity|].
  apply (configure_storage_idempotent config_json var_data url_disk url_done);
    vm_compute; reflexivity.
Defined.

Lemma wrong_argument_count_witness :
  length (@nil str) ≠ 2%nat
  ∧ main [script] url_disk
    = (Raise (SystemExit 1),
       World (files url_disk)
         (stdout url_disk
            ++ [lit "Usage: configure-storage.py <config_file> <storage_path>"]))
  ∧ exit_status (main [script] url_disk).1 = 1.
Proof.
  split; [simpl; lia|].
  apply (wrong_argument_count script [] url_disk). simpl. lia.
Defined.

Lemma success_reported_witness :
  within_limits url_document = true
  ∧ json_loads url_document = Some (VDict url_entries)
  ∧ ∃ w',
      main [script; config_json; var_data] url_disk = (Return (), w')
      ∧ exit_status (main [script; config_json; var_data] url_disk).1 = 0
      ∧ stdout w'
        = stdout url_disk ++ [lit "Storage adapter configured successfully"]
      ∧ files w' = files (configured url_disk config_json url_entries var_data).
Proof.
  split; [vm_compute; reflexivity|]. split; [vm_compute; reflexivity|].
  apply (success_reported script config_json var_data url_disk
           (File true true (map byte_of_N url_document)) url_document
           url_entries);
    vm_compute; reflexivity.
Defined.

Lemma written_file_parses_witness :
  configure_storage config_json var_data url_disk = (Return (), url_done)
  ∧ is_str var_data = true
  ∧ ∃ d d' f',
      reread url_disk config_json = Some (VDict d)
      ∧ reread url_done config_json = Some (VDict d')
      ∧ (finite (VDict d) = true →
         reread_standard url_done config_json = Some (VDict d'))
      ∧ files url_done !! config_json = Some f'
      ∧ decode_text (content f')
        = Some (top_level_layout
                  (dict_set d (lit "storage") (storage_block var_data))).
Proof.
  split; [vm_compute; reflexivity|]. split; [reflexivity|].
  apply (written_file_parses config_json var_data url_disk url_done);
    vm_compute; reflexivity.
Defined.

Lemma no_failure_after_parse_witness :
  configure_storage config_json var_data url_disk = (Return (), url_done).
Proof.
  apply (no_failure_after_parse config_json var_data url_disk
           (File true true (map byte_of_N url_document)) url_document
           url_entries);
    vm_compute; reflexivity.
Defined.

Lemma written_file_ascii_witness :
  configure_storage config_json [0x1F600] accent_disk = (Return (), accent_done)
  ∧ (∃ f' d,
       files accent_done !! config_json = Some f'
       ∧ reread accent_disk config_json = Some (VDict d)
       ∧ content f' = map byte_of_N (json_dumps 2 (patched d [0x1F600]))
       ∧ Forall (fun b => Byte.to_N b < 128) (content f'))
  ∧ (∀ c, 126 < c → is_codepoint c = true →
       escape_char c = 92 :: 117 :: hex4 c
       ∨ ∃ hi lo,
           is_high hi = true ∧ is_low lo = true
           ∧ escape_char c = 92 :: 117 :: hex4 hi ++ 92 :: 117 :: hex4 lo).
Proof.
  split; [vm_compute; reflexivity|].
  apply (written_file_ascii config_json [0x1F600] accent_disk accent_done).
  vm_compute. reflexivity.
Defined.

(** One run for each way to fail. *)
Definition no_disk : world := World ∅ [].

Definition unreadable_disk : world :=
  disk config_json (File false true (map byte_of_N url_document)).

Definition latin1_disk : world :=
  disk config_json (File true true [xe9]).

Definition list_disk : world :=
  disk config_json (File true true (map byte_of_N (lit "[1, 2]"))).

Lemma failure_conditions_witness :
  configure_storage config_json var_data no_disk
  = (Raise FileNotFoundError, no_disk)
  ∧ configure_storage config_json var_data unreadable_disk
    = (Raise PermissionError, unreadable_disk)
  ∧ configure_storage config_json var_data latin1_disk
    = (Raise UnicodeDecodeError, latin1_disk)
  ∧ configure_storage config_json var_data not_json_disk
    = (Raise JSONDecodeError, not_json_disk)
  ∧ configure_storage config_json var_data list_disk
    = (Raise TypeError, list_disk)
  ∧ configure_storage config_json var_data read_only_disk
    = (Raise PermissionError, read_only_disk).
Proof.
  split.
  { apply (proj1 (failure_conditions config_json var_data no_disk)).
    vm_compute. reflexivity. }
  split.
  { apply (proj2 (failure_conditions config_json var_data unreadable_disk)
             (File false true (map byte_of_N url_document)));
      vm_compute; reflexivity. }
  split.
  { apply (proj2 (failure_conditions config_json var_data latin1_disk)
             (File true true [xe9]));
      vm_compute; reflexivity. }
  split.
  { apply (proj2 (failure_conditions config_json var_data not_json_disk)
             (File true true (map byte_of_N (lit "not json")))
             eq_refl) with (text := lit "not json");
      vm_compute; reflexivity. }
  split.
  { apply (proj2 (failure_conditions config_json var_data list_disk)
             (File true true (map byte_of_N (lit "[1, 2]")))
             eq_refl) with (text := lit "[1, 2]") (v := VList [VInt 1; VInt 2]);
      first [exact I | vm_compute; reflexivity]. }
  apply (proj2 (failure_conditions config_json var_data read_only_disk)
           (File true false (map byte_of_N url_document))
           eq_refl) with (text := url_document) (v := VDict url_entries)
                         (d := url_entries);
    vm_compute; reflexivity.
Defined.

(** ** Where the spec and the code part *)


(** C5: a file with [NaN] in it is not JSON, and the run succeeds; a file
    that holds a JSON object and cannot be written makes the run fail, with
    an error that is none of those listed. *)
Lemma nan_accepted_and_write_refused :
  standard_json_loads nan_document = None
  ∧ configure_storage config_json var_data nan_disk = (Return (), nan_done)
  ∧ standard_json_loads url_document = Some (VDict url_entries)
  ∧ configure_storage config_json var_data read_only_disk
    = (Raise PermissionError, read_only_disk).
Proof. repeat split; vm_compute; reflexivity. Qed.

(** C8: the run on the file with [NaN] succeeds and writes [NaN] back:
    Python reads the file again, a parser of the JSON grammar rejects
    it. *)
Lemma nan_written_back :
  configure_storage config_json var_data nan_disk = (Return (), nan_done)
  ∧ reread nan_done config_json
    = Some (VDict [(lit "a", VFloat NaN); (lit "storage", storage_block var_data)])
  ∧ reread_standard nan_done config_json = None.
Proof. repeat split; vm_compute; reflexivity. Qed.

(** C9: the file is read and parsed to an object, and the run fails when
    the file is opened for writing. *)
Lemma write_refused_after_parse :
  files read_only_disk !! config_json
  = Some (File true false (map byte_of_N url_document))
  ∧ decode_text (map byte_of_N url_document) = Some url_document
  ∧ json_loads url_document = Some (VDict url_entries)
  ∧ configure_storage config_json var_data read_only_disk
    = (Raise PermissionError, read_only_disk).
Proof. repeat split; vm_compute; reflexivity. Qed.

(** C7: the arguments are right, the file can be read and holds an object;
    it cannot be written, and the program ends on [PermissionError] with
    status 1, nothing printed. *)
Lemma read_only_not_reported :
  files read_only_disk !! config_json
  = Some (File true false (map byte_of_N url_document))
  ∧ decode_text (map byte_of_N url_document) = Some url_document
  ∧ standard_json_loads url_document = Some (VDict url_entries)
  ∧ main [script; config_json; var_data] read_only_disk
    = (Raise PermissionError, read_only_disk)
  ∧ exit_status (main [script; config_json; var_data] read_only_disk).1 = 1
  ∧ stdout read_only_disk = [].
Proof. repeat split; vm_compute; reflexivity. Qed.

(** ** More runs *)

(** The document of scenario 1 spelled otherwise: white space, a carriage
    return, a tab, the slashes escaped. *)
Definition respelled_document : str :=
  32 :: 123 :: 13 :: 10 :: 9 :: quoted (lit "url") ++ 58
    :: quoted (lit "http:" ++ 92 :: 47 :: 92 :: 47 :: lit "x") ++ [10; 125; 10].

Definition respelled_json : path := lit "respelled.json".

Definition respelled_disk : world :=
  disk respelled_json (File true true (map byte_of_N respelled_document)).

Definition respelled_done : world :=
  configured respelled_disk respelled_json url_entries var_data.

(** A disk with a second file. *)
Definition notes_txt : path := lit "notes.txt".

Definition two_files_disk : world :=
  World (<[notes_txt := File true false (map byte_of_N (lit "keep"))]>
           (files url_disk)) [].

Definition two_files_done : world :=
  configured two_files_disk config_json url_entries var_data.

Definition srv_images : str := lit "/srv/images".

(** Nothing but a space and a line end. *)
Definition blank_disk : world :=
  disk config_json (File true true (map byte_of_N [32; 10])).

(** Scenario 1 after a byte order mark. *)
Definition bom_disk : world :=
  disk config_json
    (File true true (xef :: xbb :: xbf :: map byte_of_N url_document)).

(** A document that gives the key [a] twice. *)
Definition twice_document : str :=
  123 :: quoted (lit "a") ++ 58 :: 32 :: 49 :: 44 :: 32
    :: quoted (lit "a") ++ 58 :: 32 :: 50 :: [125].

Definition twice_disk : world :=
  disk config_json (File true true (map byte_of_N twice_document)).

Definition twice_done : world :=
  configured twice_disk config_json [(lit "a", VInt 2)] var_data.

Lemma storage_key_position_witness :
  configure_storage config_json var_data url_disk = (Return (), url_done)
  ∧ is_str var_data = true
  ∧ ∃ d d',
      reread url_disk config_json = Some (VDict d)
      ∧ reread url_done config_json = Some (VDict d')
      ∧ map fst d'
        = if bool_decide (lit "storage" ∈ map fst d)
          then map fst d
          else map fst d ++ [lit "storage"].
Proof.
  split; [vm_compute; reflexivity|]. split; [reflexivity|].
  apply (storage_key_position config_json var_data url_disk url_done);
    vm_compute; reflexivity.
Defined.

Lemma other_files_untouched_witness :
  configure_storage config_json var_data two_files_disk
  = (Return (), two_files_done)
  ∧ notes_txt ≠ config_json
  ∧ files two_files_done !! notes_txt = files two_files_disk !! notes_txt.
Proof.
  split; [vm_compute; reflexivity|]. split; [discriminate|].
  apply (other_files_untouched config_json var_data two_files_disk
           two_files_done (Return ()) notes_txt);
    [vm_compute; reflexivity|discriminate].
Defined.

Lemma failure_reported_witness :
  main [script; config_json; var_data] not_json_disk
  = (Raise JSONDecodeError, not_json_disk)
  ∧ not_json_disk = not_json_disk
  ∧ exit_status (main [script; config_json; var_data] not_json_disk).1 = 1
  ∧ ∀ code, JSONDecodeError ≠ SystemExit code.
Proof.
  split; [vm_compute; reflexivity|].
  apply (failure_reported script config_json var_data not_json_disk
           not_json_disk JSONDecodeError).
  vm_compute. reflexivity.
Defined.

Lemma last_path_wins_witness :
  configure_storage config_json var_data url_disk = (Return (), url_done)
  ∧ is_str var_data = true
  ∧ ∃ w2 w12,
      configure_storage config_json srv_images url_disk = (Return (), w2)
      ∧ configure_storage config_json srv_images url_done = (Return (), w12)
      ∧ files w12 = files w2.
Proof.
  split; [vm_compute; reflexivity|]. split; [reflexivity|].
  apply (last_path_wins config_json var_data srv_images url_disk url_done);
    vm_compute; reflexivity.
Defined.

Lemma spelling_forgotten_witness :
  configure_storage config_json var_data url_disk = (Return (), url_done)
  ∧ configure_storage respelled_json var_data respelled_disk
    = (Return (), respelled_done)
  ∧ reread url_disk config_json = reread respelled_disk respelled_json
  ∧ ∃ f1 f2,
      files url_done !! config_json = Some f1
      ∧ files respelled_done !! respelled_json = Some f2
      ∧ content f1 = content f2.
Proof.
  split; [vm_compute; reflexivity|]. split; [vm_compute; reflexivity|].
  split; [vm_compute; reflexivity|].
  apply (spelling_forgotten config_json respelled_json var_data url_disk
           url_done respelled_disk respelled_done);
    vm_compute; reflexivity.
Defined.

Lemma blank_file_rejected_witness :
  configure_storage config_json var_data blank_disk
  = (Raise JSONDecodeError, blank_disk).
Proof.
  apply (blank_file_rejected config_json var_data blank_disk
           (File true true (map byte_of_N [32; 10])));
    vm_compute; reflexivity.
Defined.

Lemma byte_order_mark_rejected_witness :
  configure_storage config_json var_data bom_disk
  = (Raise (match decode_text (map byte_of_N url_document) with
            | Some _ => JSONDecodeError
            | None => UnicodeDecodeError
            end), bom_disk)
  ∧ decode_text (map byte_of_N url_document) = Some url_document.
Proof.
  split; [|vm_compute; reflexivity].
  apply (byte_order_mark_rejected config_json var_data bom_disk
           (File true true (xef :: xbb :: xbf :: map byte_of_N url_document))
           (map byte_of_N url_document));
    vm_compute; reflexivity.
Defined.

Lemma written_file_plain_witness :
  configure_storage respelled_json var_data respelled_disk
  = (Return (), respelled_done)
  ∧ ∃ f',
      files respelled_done !! respelled_json = Some f'
      ∧ Forall (fun b => Byte.to_N b = 10 ∨ 32 <= Byte.to_N b <= 126)
               (content f')
      ∧ last (content f') = Some "}"%byte.
Proof.
  split; [vm_compute; reflexivity|].
  apply (written_file_plain respelled_json var_data respelled_disk
           respelled_done).
  vm_compute. reflexivity.
Defined.

Lemma written_file_canonical_witness :
  configure_storage config_json var_data twice_disk = (Return (), twice_done)
  ∧ is_str var_data = true
  ∧ ∃ d' f',
      reread twice_done config_json = Some (VDict d')
      ∧ NoDup (map fst d')
      ∧ files twice_done !! config_json = Some f'
      ∧ content f' = map byte_of_N (json_dumps 2 (VDict d')).
Proof.
  split; [vm_compute; reflexivity|]. split; [reflexivity|].
  apply (written_file_canonical config_json var_data twice_disk twice_done);
    vm_compute; reflexivity.
Defined.

Lemma dump_then_load_witness :
  well_formed (VDict url_entries) = true
  ∧ ∃ w',
      json_dump (VDict url_entries) config_json 4 nan_disk = (Return (), w')
      ∧ json_load config_json w' = (Return (VDict url_entries), w')
      ∧ ∀ q, q ≠ config_json → files w' !! q = files nan_disk !! q.
Proof.
  split; [vm_compute; reflexivity|].
  apply (dump_then_load (VDict url_entries) config_json 4 nan_disk
           (File true true (map byte_of_N nan_document)));
    vm_compute; reflexivity.
Defined.
